(** * Identity and session core of [src/lib/auth.ts]

    A shallow embedding of the authentication module: password policy,
    e-mail validation, the in-memory user and session maps, and the
    register / login / token-lookup / update / cleanup operations.

    Conventions.
    - A JavaScript string is a [string]; every [ascii] stands for one UTF-16
      code unit (the model covers the code units below 256).
    - A [Date] is its time value in milliseconds, a [Z].
    - [Date.now()], [Math.random()] and the bcrypt salt are inputs of the
      operation that reads them.
    - The functions are [async]: a call runs to its next [await] and other
      calls may run before it goes on.  [registerUser] and
      [initializeUsers] read [users] before an [await] and write to it
      after, so each is given as the stretches between the awaits; the
      function with the source's name is their run with nothing in
      between.  [authenticateUser] reads [users] once, before its awaits,
      and writes only [sessions]; it is given as one run.
    - An object is a record of the fields its type declares plus the list
      of its other own properties ([extra]).
    - A [Map] is an association list in insertion order.
    - [bcryptjs] and [jose] are outside the repository: they are the fields
      of the class [Libraries].
    - [console.error] is not modelled. *)

From Stdlib Require Import ZArith List String Ascii Bool Lia DecimalString FinFun.
From Stdlib Require DecimalPos DecimalZ.
Import ListNotations.

Local Open Scope string_scope.
Local Open Scope Z_scope.

(* ================================================================= *)
(** ** Regular expressions, as far as the module uses them *)

Module Regex.

(** Character classes are predicates on code units. *)
Inductive t : Type :=
| Void
| Eps
| Class (p : ascii -> bool)
| Cat (r s : t)
| Alt (r s : t)
| Star (r : t).

Definition Plus (r : t) : t := Cat r (Star r).

Fixpoint nullable (r : t) : bool :=
  match r with
  | Void => false
  | Eps => true
  | Class _ => false
  | Cat r s => nullable r && nullable s
  | Alt r s => nullable r || nullable s
  | Star _ => true
  end.

Fixpoint deriv (c : ascii) (r : t) : t :=
  match r with
  | Void => Void
  | Eps => Void
  | Class p => if p c then Eps else Void
  | Cat r s =>
      if nullable r then Alt (Cat (deriv c r) s) (deriv c s)
      else Cat (deriv c r) s
  | Alt r s => Alt (deriv c r) (deriv c s)
  | Star r => Cat (deriv c r) (Star r)
  end.

(** [^r$] without the [m] flag: the whole input. *)
Fixpoint matches (r : t) (s : string) : bool :=
  match s with
  | EmptyString => nullable r
  | String c s' => matches (deriv c r) s'
  end.

(** [r] matches some prefix of the input. *)
Fixpoint matches_prefix (r : t) (s : string) : bool :=
  nullable r ||
  match s with
  | EmptyString => false
  | String c s' => matches_prefix (deriv c r) s'
  end.

(** [/(?=r)/.test(s)]: the lookahead is tried at every index, the end of
    the input included. *)
Fixpoint test_lookahead (r : t) (s : string) : bool :=
  matches_prefix r s ||
  match s with
  | EmptyString => false
  | String _ s' => test_lookahead r s'
  end.

(** The words of a regular expression. *)
Inductive lang : t -> string -> Prop :=
| lang_eps : lang Eps ""
| lang_class p c : p c = true -> lang (Class p) (String c "")
| lang_cat r s u v : lang r u -> lang s v -> lang (Cat r s) (u ++ v)
| lang_alt_l r s u : lang r u -> lang (Alt r s) u
| lang_alt_r r s u : lang s u -> lang (Alt r s) u
| lang_star_nil r : lang (Star r) ""
| lang_star_app r u v : lang r u -> lang (Star r) v -> lang (Star r) (u ++ v).

(** Character classes of the module's patterns. *)
Definition code (c : ascii) : N := N_of_ascii c.

Definition in_range (lo hi : ascii) (c : ascii) : bool :=
  (code lo <=? code c)%N && (code c <=? code hi)%N.

Definition one_of (l : list ascii) (c : ascii) : bool :=
  existsb (Ascii.eqb c) l.

(** [.] : anything but a line terminator. *)
Definition line_terminator (c : ascii) : bool :=
  one_of ["010"%char; "013"%char] c.
Definition dot (c : ascii) : bool := negb (line_terminator c).

(** [\d] *)
Definition digit : ascii -> bool := in_range "0" "9".

(** [\s], restricted to the code units below 256: TAB, LF, VT, FF, CR,
    space and no-break space. *)
Definition whitespace (c : ascii) : bool :=
  one_of ["009"%char; "010"%char; "011"%char; "012"%char; "013"%char;
          " "%char; "160"%char] c.

End Regex.

(* ================================================================= *)
(** ** Input validation *)

(** [/^[^\s@]+@[^\s@]+\.[^\s@]+$/] *)
Definition not_space_at (c : ascii) : bool :=
  negb (Regex.whitespace c || Ascii.eqb c "@").

Definition emailRegex : Regex.t :=
  Regex.Cat (Regex.Plus (Regex.Class not_space_at))
    (Regex.Cat (Regex.Class (Ascii.eqb "@"))
       (Regex.Cat (Regex.Plus (Regex.Class not_space_at))
          (Regex.Cat (Regex.Class (Ascii.eqb "."))
             (Regex.Plus (Regex.Class not_space_at))))).

Definition validateEmail (email : string) : bool :=
  Regex.matches emailRegex email.

(** [.*[cls]], the body of the four lookaheads of [validatePassword]. *)
Definition contains_pattern (cls : ascii -> bool) : Regex.t :=
  Regex.Cat (Regex.Star (Regex.Class Regex.dot)) (Regex.Class cls).

Definition lowercase : ascii -> bool := Regex.in_range "a" "z".
Definition uppercase : ascii -> bool := Regex.in_range "A" "Z".
Definition special : ascii -> bool :=
  Regex.one_of ["@"; "$"; "!"; "%"; "*"; "?"; "&"]%char.

Module PasswordValidation.
Record t := { valid : bool; errors : list string }.
End PasswordValidation.

(** [errors.push] on a condition. *)
Definition push_if (b : bool) (msg : string) (errors : list string)
  : list string :=
  if b then errors ++ [msg] else errors.

Definition validatePassword (password : string) : PasswordValidation.t :=
  let errors := [] in
  let errors :=
    push_if (Z.of_nat (String.length password) <? 8)
      "Password must be at least 8 characters long" errors in
  let errors :=
    push_if (negb (Regex.test_lookahead (contains_pattern lowercase) password))
      "Password must contain at least one lowercase letter" errors in
  let errors :=
    push_if (negb (Regex.test_lookahead (contains_pattern uppercase) password))
      "Password must contain at least one uppercase letter" errors in
  let errors :=
    push_if (negb (Regex.test_lookahead (contains_pattern Regex.digit) password))
      "Password must contain at least one number" errors in
  let errors :=
    push_if (negb (Regex.test_lookahead (contains_pattern special) password))
      "Password must contain at least one special character (@$!%*?&)" errors in
  {| PasswordValidation.valid := Nat.eqb (List.length errors) 0;
     PasswordValidation.errors := errors |}.

(* ================================================================= *)
(** ** [Map] with string keys *)

Module JsMap.

Definition t (V : Type) : Type := list (string * V).

Definition empty {V} : t V := [].

Definition get {V} (k : string) (m : t V) : option V :=
  option_map snd (find (fun e => String.eqb (fst e) k) m).

Definition has {V} (k : string) (m : t V) : bool :=
  existsb (fun e => String.eqb (fst e) k) m.

(** [set] keeps the position of an existing key and appends a new one. *)
Fixpoint set {V} (k : string) (v : V) (m : t V) : t V :=
  match m with
  | [] => [(k, v)]
  | (k', v') :: m' =>
      if String.eqb k' k then (k, v) :: m' else (k', v') :: set k v m'
  end.

Definition delete {V} (k : string) (m : t V) : t V :=
  filter (fun e => negb (String.eqb (fst e) k)) m.

Definition keys {V} (m : t V) : list string := map fst m.
Definition values {V} (m : t V) : list V := map snd m.
Definition entries {V} (m : t V) : list (string * V) := m.
Definition size {V} (m : t V) : nat := List.length m.

(** The keys of a [Map] are pairwise distinct. *)
Definition wf {V} (m : t V) : Prop := NoDup (keys m).

End JsMap.

(* ================================================================= *)
(** ** Data model ([src/types/index.ts] and [auth.ts]) *)

Module Role.
Inductive t : Type := admin | user.

Definition eqb (a b : t) : bool :=
  match a, b with
  | admin, admin | user, user => true
  | _, _ => false
  end.
End Role.

Module NotificationPreferences.
Record t := {
  email : bool;
  sms : bool;
  billing : bool;
  maintenance : bool;
  security : bool
}.
End NotificationPreferences.

Module UserProfile.
Record t := {
  company : option string;
  phone : option string;
  address : option string;
  timezone : option string;
  notificationPreferences : option NotificationPreferences.t
}.
End UserProfile.

(** Own property values of the objects that cross the interface. *)
Inductive JSValue : Type :=
| VString (s : string)
| VNumber (n : Z)
| VBoolean (b : bool)
| VNull
| VDate (ms : Z)
| VRole (r : Role.t)
| VProfile (p : UserProfile.t).

Module User.
Record t := {
  id : string;
  email : string;
  name : string;
  role : Role.t;
  createdAt : Z;
  updatedAt : Z;
  profile : option UserProfile.t;
  extra : list (string * JSValue)
}.
End User.

(** [User & { password: string }], the type of the stored records. *)
Module StoredUser.
Record t := {
  id : string;
  email : string;
  name : string;
  role : Role.t;
  createdAt : Z;
  updatedAt : Z;
  password : string;
  profile : option UserProfile.t;
  extra : list (string * JSValue)
}.
End StoredUser.

(** An object passed as [updates: Partial<User>].  [None] is an absent key.
    The type lets an object carry further properties: a [password], and
    any other key ([extra]).  A declared key that is present and holds
    [undefined] is not covered: the merged record would lose the field
    and leave [StoredUser.t]. *)
Module PartialUser.
Record t := {
  id : option string;
  email : option string;
  name : option string;
  role : option Role.t;
  createdAt : option Z;
  updatedAt : option Z;
  profile : option UserProfile.t;
  password : option string;
  extra : list (string * JSValue)
}.

Definition none : t :=
  {| id := None; email := None; name := None; role := None;
     createdAt := None; updatedAt := None; profile := None;
     password := None; extra := [] |}.
End PartialUser.

Module Session.
Record t := { userId : string; expiresAt : Z }.
End Session.

Module TokenPayload.
Record t := {
  userId : string;
  email : string;
  role : Role.t;
  exp : option Z
}.
End TokenPayload.

(** The claims set inside a token: the payload handed to [SignJWT] plus the
    registered claims [iat] and [exp] (seconds since the epoch). *)
Module JWTPayload.
Record t := {
  userId : string;
  email : string;
  role : Role.t;
  iat : option Z;
  exp : option Z
}.
End JWTPayload.

Module AuthResult.
Record t := {
  success : bool;
  user : option User.t;
  token : option string;
  error : option string
}.

Definition ok (u : User.t) (tok : string) : t :=
  {| success := true; user := Some u; token := Some tok; error := None |}.

Definition failure (msg : string) : t :=
  {| success := false; user := None; token := None; error := Some msg |}.
End AuthResult.

Module UpdateResult.
Record t := {
  success : bool;
  user : option User.t;
  error : option string
}.
End UpdateResult.

(** The two module-level maps. *)
Record Store := {
  users : JsMap.t StoredUser.t;
  sessions : JsMap.t Session.t
}.

Definition empty_store : Store :=
  {| users := JsMap.empty; sessions := JsMap.empty |}.

(** The names the record types give a property of their own; an object's
    [extra] properties are read under the other names only. *)
Definition user_facing_fields : list string :=
  ["id"; "email"; "name"; "role"; "createdAt"; "updatedAt"; "profile"].

Definition other_key (k : string) : bool :=
  negb (existsb (String.eqb k) ("password" :: user_facing_fields)).

Definition extra_properties (extra : list (string * JSValue))
  : list (string * JSValue) :=
  filter (fun kv => other_key (fst kv)) extra.

Definition optional_property (k : string) (p : option UserProfile.t)
  : list (string * JSValue) :=
  match p with
  | Some p => [(k, VProfile p)]
  | None => []
  end.

Definition StoredUser_properties (u : StoredUser.t) : list (string * JSValue) :=
  [ ("id", VString (StoredUser.id u));
    ("email", VString (StoredUser.email u));
    ("name", VString (StoredUser.name u));
    ("role", VRole (StoredUser.role u));
    ("createdAt", VDate (StoredUser.createdAt u));
    ("updatedAt", VDate (StoredUser.updatedAt u));
    ("password", VString (StoredUser.password u)) ]
  ++ optional_property "profile" (StoredUser.profile u)
  ++ extra_properties (StoredUser.extra u).

Definition User_properties (u : User.t) : list (string * JSValue) :=
  [ ("id", VString (User.id u));
    ("email", VString (User.email u));
    ("name", VString (User.name u));
    ("role", VRole (User.role u));
    ("createdAt", VDate (User.createdAt u));
    ("updatedAt", VDate (User.updatedAt u)) ]
  ++ optional_property "profile" (User.profile u)
  ++ extra_properties (User.extra u).

(** [const { [k]: _, ...rest } = o] on the property list. *)
Definition rest_without (k : string) (o : list (string * JSValue))
  : list (string * JSValue) :=
  filter (fun kv => negb (String.eqb (fst kv) k)) o.

(* ================================================================= *)
(** ** The external libraries *)

(** What [jwtVerify] throws. *)
Inductive JOSEError : Type :=
| JWSInvalid
| JWSSignatureVerificationFailed
| JWTInvalid
| JWTClaimValidationFailed
| JWTExpired.

(** [bcryptjs] and [jose], with the secret [JWT_SECRET] and the header
    [{ alg: 'HS256' }] fixed.
    - [bcrypt_hash password saltRounds salt] is [bcrypt.hash], [salt] being
      the randomness it draws;
    - [bcrypt_compare password hash] is [bcrypt.compare];
    - [jose_sign claims] is [.sign(JWT_SECRET)], [None] when it throws;
    - [jwtVerify token now] is [jwtVerify(token, JWT_SECRET)] run at the
      clock reading [now] (milliseconds); [inr] is a thrown error. *)
Class Libraries := {
  bcrypt_hash : string -> Z -> string -> string;
  bcrypt_compare : string -> string -> bool;
  jose_sign : JWTPayload.t -> option string;
  jwtVerify : string -> Z -> JWTPayload.t + JOSEError
}.

(* ================================================================= *)
(** ** The operations of [auth.ts] *)

Section Operations.

Context {L : Libraries}.

(** *** Password utilities *)

Definition saltRounds : Z := 12.

Definition hashPassword (password salt : string) : string :=
  bcrypt_hash password saltRounds salt.

Definition verifyPassword (password hashedPassword : string) : bool :=
  bcrypt_compare password hashedPassword.

(** *** JWT utilities *)

(** [epoch(date)]: whole seconds of a time value. *)
Definition epoch (ms : Z) : Z := ms / 1000.

(** [secs('24h')] *)
Definition secs_24h : Z := 24 * 60 * 60.

Definition SignJWT (payload : TokenPayload.t) : JWTPayload.t :=
  {| JWTPayload.userId := TokenPayload.userId payload;
     JWTPayload.email := TokenPayload.email payload;
     JWTPayload.role := TokenPayload.role payload;
     JWTPayload.iat := None;
     JWTPayload.exp := TokenPayload.exp payload |}.

Definition setIssuedAt (now : Z) (c : JWTPayload.t) : JWTPayload.t :=
  {| JWTPayload.userId := JWTPayload.userId c;
     JWTPayload.email := JWTPayload.email c;
     JWTPayload.role := JWTPayload.role c;
     JWTPayload.iat := Some (epoch now);
     JWTPayload.exp := JWTPayload.exp c |}.

(** [setExpirationTime('24h')] *)
Definition setExpirationTime_24h (now : Z) (c : JWTPayload.t) : JWTPayload.t :=
  {| JWTPayload.userId := JWTPayload.userId c;
     JWTPayload.email := JWTPayload.email c;
     JWTPayload.role := JWTPayload.role c;
     JWTPayload.iat := JWTPayload.iat c;
     JWTPayload.exp := Some (epoch now + secs_24h) |}.

(** The claims [signToken] hands to the signer at clock reading [now]. *)
Definition token_claims (payload : TokenPayload.t) (now : Z) : JWTPayload.t :=
  setExpirationTime_24h now (setIssuedAt now (SignJWT payload)).

(** [None]: the function throws ['Failed to sign token']. *)
Definition signToken (payload : TokenPayload.t) (now : Z) : option string :=
  jose_sign (token_claims payload now).

(** [payload as TokenPayload] *)
Definition as_TokenPayload (c : JWTPayload.t) : TokenPayload.t :=
  {| TokenPayload.userId := JWTPayload.userId c;
     TokenPayload.email := JWTPayload.email c;
     TokenPayload.role := JWTPayload.role c;
     TokenPayload.exp := JWTPayload.exp c |}.

(** [None] is [null]: every error of [jwtVerify] is caught. *)
Definition verifyToken (token : string) (now : Z) : option TokenPayload.t :=
  match jwtVerify token now with
  | inl payload => Some (as_TokenPayload payload)
  | inr _ => None
  end.

(** *** Session identifiers *)

(** [`${n}`] for an integral number. *)
Definition number_to_string (n : Z) : string :=
  NilZero.string_of_int (Z.to_int n).

(** [random36] is [Math.random().toString(36)]. *)
Definition random_suffix (random36 : string) : string :=
  substring 2 9 random36.

Definition generateSessionId (now : Z) (random36 : string) : string :=
  "session_" ++ number_to_string now ++ "_" ++ random_suffix random36.

(** *** Stored records *)

(** [const { password: _, ...userWithoutPassword } = u] *)
Definition userWithoutPassword (u : StoredUser.t) : User.t :=
  {| User.id := StoredUser.id u;
     User.email := StoredUser.email u;
     User.name := StoredUser.name u;
     User.role := StoredUser.role u;
     User.createdAt := StoredUser.createdAt u;
     User.updatedAt := StoredUser.updatedAt u;
     User.profile := StoredUser.profile u;
     User.extra := StoredUser.extra u |}.

(** [Array.from(users.values()).find(u => u.email === email)] *)
Definition find_by_email (email : string) (m : JsMap.t StoredUser.t)
  : option StoredUser.t :=
  find (fun u => String.eqb (StoredUser.email u) email) (JsMap.values m).

(** [created] and [updated] are the two [new Date()] of the literal. *)
Definition adminUser (created updated : Z) (adminPassword : string)
  : StoredUser.t :=
  {| StoredUser.id := "1";
     StoredUser.email := "admin@cloudpro.dev";
     StoredUser.name := "Admin User";
     StoredUser.role := Role.admin;
     StoredUser.createdAt := created;
     StoredUser.updatedAt := updated;
     StoredUser.password := adminPassword;
     StoredUser.profile := Some
       {| UserProfile.company := Some "CloudPro Demo";
          UserProfile.phone := None;
          UserProfile.address := None;
          UserProfile.timezone := Some "UTC";
          UserProfile.notificationPreferences := Some
            {| NotificationPreferences.email := true;
               NotificationPreferences.sms := false;
               NotificationPreferences.billing := true;
               NotificationPreferences.maintenance := true;
               NotificationPreferences.security := true |} |};
     StoredUser.extra := [] |}.

Definition demoUser (created updated : Z) (userPassword : string)
  : StoredUser.t :=
  {| StoredUser.id := "2";
     StoredUser.email := "user@demo.com";
     StoredUser.name := "Demo User";
     StoredUser.role := Role.user;
     StoredUser.createdAt := created;
     StoredUser.updatedAt := updated;
     StoredUser.password := userPassword;
     StoredUser.profile := Some
       {| UserProfile.company := Some "Demo Company";
          UserProfile.phone := None;
          UserProfile.address := None;
          UserProfile.timezone := Some "UTC";
          UserProfile.notificationPreferences := Some
            {| NotificationPreferences.email := true;
               NotificationPreferences.sms := false;
               NotificationPreferences.billing := true;
               NotificationPreferences.maintenance := false;
               NotificationPreferences.security := true |} |};
     StoredUser.extra := [] |}.

(** [initializeUsers] is started once, when the module is loaded, and is
    not awaited.  Its first stretch is the test [users.size === 0], on the
    empty maps; it then waits for a hash twice, and writes one record after
    each wait. *)

(** The test on entry: does the function go on to seed? *)
Definition initializeUsers_check (st : Store) : bool :=
  Nat.eqb (JsMap.size (users st)) 0.

(** From the first hash to [users.set(adminUser.id, adminUser)]. *)
Definition initializeUsers_admin (st : Store) (created updated : Z)
    (salt : string) : Store :=
  let adminPassword := hashPassword "admin123!" salt in
  {| users := JsMap.set "1" (adminUser created updated adminPassword) (users st);
     sessions := sessions st |}.

(** From the second hash to [users.set(demoUser.id, demoUser)]. *)
Definition initializeUsers_demo (st : Store) (created updated : Z)
    (salt : string) : Store :=
  let userPassword := hashPassword "user123!" salt in
  {| users := JsMap.set "2" (demoUser created updated userPassword) (users st);
     sessions := sessions st |}.

(** The whole function when nothing else runs during its two waits. *)
Definition initializeUsers (st : Store) (created1 updated1 : Z)
    (salt1 : string) (created2 updated2 : Z) (salt2 : string) : Store :=
  if initializeUsers_check st then
    initializeUsers_demo
      (initializeUsers_admin st created1 updated1 salt1)
      created2 updated2 salt2
  else st.

(** *** Authentication functions *)

Definition authenticateUser (st : Store) (email password : string)
    (now : Z) (random36 : string) : Store * AuthResult.t :=
  match find_by_email email (users st) with
  | None => (st, AuthResult.failure "Invalid credentials")
  | Some foundUser =>
      if negb (verifyPassword password (StoredUser.password foundUser)) then
        (st, AuthResult.failure "Invalid credentials")
      else
        let tokenPayload :=
          {| TokenPayload.userId := StoredUser.id foundUser;
             TokenPayload.email := StoredUser.email foundUser;
             TokenPayload.role := StoredUser.role foundUser;
             TokenPayload.exp := None |} in
        match signToken tokenPayload now with
        | None => (st, AuthResult.failure "Authentication failed")
        | Some token =>
            let sessionId := generateSessionId now random36 in
            let expiresAt := now + 24 * 60 * 60 * 1000 in
            let session :=
              {| Session.userId := StoredUser.id foundUser;
                 Session.expiresAt := expiresAt |} in
            ({| users := users st;
                sessions := JsMap.set sessionId session (sessions st) |},
             AuthResult.ok (userWithoutPassword foundUser) token)
        end
  end.

Definition newUser (userId email name hashedPassword : string) (now : Z)
  : StoredUser.t :=
  {| StoredUser.id := userId;
     StoredUser.email := email;
     StoredUser.name := name;
     StoredUser.role := Role.user;
     StoredUser.createdAt := now;
     StoredUser.updatedAt := now;
     StoredUser.password := hashedPassword;
     StoredUser.profile := Some
       {| UserProfile.company := None;
          UserProfile.phone := None;
          UserProfile.address := None;
          UserProfile.timezone := None;
          UserProfile.notificationPreferences := Some
            {| NotificationPreferences.email := true;
               NotificationPreferences.sms := false;
               NotificationPreferences.billing := true;
               NotificationPreferences.maintenance := false;
               NotificationPreferences.security := true |} |};
     StoredUser.extra := [] |}.

Definition new_user_id (now : Z) (random36 : string) : string :=
  "user_" ++ number_to_string now ++ "_" ++ random_suffix random36.

(** [registerUser] up to [await hashPassword(password)]: the refusals.
    [None]: the call goes on to hash the password, and other calls may run
    before it writes. *)
Definition registerUser_check (st : Store) (email password : string)
  : option AuthResult.t :=
  if negb (validateEmail email) then
    Some (AuthResult.failure "Invalid email format")
  else
    let passwordValidation := validatePassword password in
    if negb (PasswordValidation.valid passwordValidation) then
      Some (AuthResult.failure
              (String.concat ", " (PasswordValidation.errors passwordValidation)))
    else
      match find_by_email email (users st) with
      | Some _ => Some (AuthResult.failure "User already exists")
      | None => None
      end.

(** [registerUser] from the hash on, on the store it finds then: the
    record is built and written, the token signed. *)
Definition registerUser_store (st : Store) (email password name : string)
    (now : Z) (salt random36 : string) : Store * AuthResult.t :=
  let hashedPassword := hashPassword password salt in
  let userId := new_user_id now random36 in
  let u := newUser userId email name hashedPassword now in
  let st' := {| users := JsMap.set userId u (users st);
                sessions := sessions st |} in
  let tokenPayload :=
    {| TokenPayload.userId := StoredUser.id u;
       TokenPayload.email := StoredUser.email u;
       TokenPayload.role := StoredUser.role u;
       TokenPayload.exp := None |} in
  match signToken tokenPayload now with
  | None => (st', AuthResult.failure "Registration failed")
  | Some token => (st', AuthResult.ok (userWithoutPassword u) token)
  end.

(** The whole function when nothing else runs while the password is
    hashed: the second stretch starts from the store the first one read. *)
Definition registerUser (st : Store) (email password name : string)
    (now : Z) (salt random36 : string) : Store * AuthResult.t :=
  match registerUser_check st email password with
  | Some refusal => (st, refusal)
  | None => registerUser_store st email password name now salt random36
  end.

Definition getUserById (st : Store) (userId : string) : option User.t :=
  match JsMap.get userId (users st) with
  | None => None
  | Some u => Some (userWithoutPassword u)
  end.

Definition getUserByToken (st : Store) (token : string) (now : Z)
  : option User.t :=
  match verifyToken token now with
  | None => None
  | Some payload => getUserById st (TokenPayload.userId payload)
  end.

(** [{ ...a, ...b }] on the properties outside the record types: a key of
    [b] takes the place of the value where [a] has the key and is added at
    the end otherwise. *)
Definition spread (a b : list (string * JSValue)) : list (string * JSValue) :=
  fold_left (fun acc kv => JsMap.set (fst kv) (snd kv) acc) b a.

(** [{ ...user, ...updates, id: userId, updatedAt: new Date() }]: every
    key of [updates] is copied over the record, then [id] and [updatedAt]
    are set. *)
Definition merge_update (u : StoredUser.t) (updates : PartialUser.t)
    (userId : string) (now : Z) : StoredUser.t :=
  let pick {A} (o : option A) (d : A) : A :=
    match o with Some a => a | None => d end in
  {| StoredUser.id := userId;
     StoredUser.email := pick (PartialUser.email updates) (StoredUser.email u);
     StoredUser.name := pick (PartialUser.name updates) (StoredUser.name u);
     StoredUser.role := pick (PartialUser.role updates) (StoredUser.role u);
     StoredUser.createdAt :=
       pick (PartialUser.createdAt updates) (StoredUser.createdAt u);
     StoredUser.updatedAt := now;
     StoredUser.password :=
       pick (PartialUser.password updates) (StoredUser.password u);
     StoredUser.profile :=
       match PartialUser.profile updates with
       | Some p => Some p
       | None => StoredUser.profile u
       end;
     StoredUser.extra :=
       spread (StoredUser.extra u) (PartialUser.extra updates) |}.

Definition updateUser (st : Store) (userId : string) (updates : PartialUser.t)
    (now : Z) : Store * UpdateResult.t :=
  match JsMap.get userId (users st) with
  | None =>
      (st, {| UpdateResult.success := false;
              UpdateResult.user := None;
              UpdateResult.error := Some "User not found" |})
  | Some u =>
      let updatedUser := merge_update u updates userId now in
      ({| users := JsMap.set userId updatedUser (users st);
          sessions := sessions st |},
       {| UpdateResult.success := true;
          UpdateResult.user := Some (userWithoutPassword updatedUser);
          UpdateResult.error := None |})
  end.

(** *** Session cleanup *)

(** One turn of the [for ... of sessions.entries()] loop. *)
Definition cleanup_step (now : Z) (acc : JsMap.t Session.t)
    (entry : string * Session.t) : JsMap.t Session.t :=
  let '(sessionId, session) := entry in
  if Session.expiresAt session <? now then JsMap.delete sessionId acc
  else acc.

(** [now] is the [new Date()] read on entry. *)
Definition cleanupExpiredSessions (st : Store) (now : Z) : Store :=
  {| users := users st;
     sessions :=
       fold_left (cleanup_step now) (JsMap.entries (sessions st)) (sessions st) |}.

(** *** Calls and reachable stores *)

(** What changes the two maps, one uninterrupted stretch at a time.

    The two writes of [initializeUsers] are stretches of their own.  A
    registration is either run through at once ([CallRegister]) or writes
    late ([CallRegisterLate]): its first stretch ran earlier and let it
    pass, and it writes on the store it finds now.  Whether a first stretch
    lets a call pass on the store it was run on is told by running it on
    the empty store, because the format and the policy do not read the
    store and the duplicate test passes there: so such a call can be
    waiting from the start, and every later store is one it may write on.
    The stores reachable here are therefore those of all interleavings;
    that [initializeUsers] writes only once, admin first, is not kept
    track of. *)
Inductive Call : Type :=
| CallSeedAdmin (created updated : Z) (salt : string)
| CallSeedDemo (created updated : Z) (salt : string)
| CallAuthenticate (email password : string) (now : Z) (random36 : string)
| CallRegister (email password name : string) (now : Z) (salt random36 : string)
| CallRegisterLate (email password name : string) (now : Z)
    (salt random36 : string)
| CallUpdate (userId : string) (updates : PartialUser.t) (now : Z)
| CallCleanup (now : Z).

Definition run (c : Call) (st : Store) : Store :=
  match c with
  | CallSeedAdmin created updated salt =>
      initializeUsers_admin st created updated salt
  | CallSeedDemo created updated salt =>
      initializeUsers_demo st created updated salt
  | CallAuthenticate email password now random36 =>
      fst (authenticateUser st email password now random36)
  | CallRegister email password name now salt random36 =>
      fst (registerUser st email password name now salt random36)
  | CallRegisterLate email password name now salt random36 =>
      match registerUser_check empty_store email password with
      | Some _ => st
      | None =>
          fst (registerUser_store st email password name now salt random36)
      end
  | CallUpdate userId updates now => fst (updateUser st userId updates now)
  | CallCleanup now => cleanupExpiredSessions st now
  end.

Inductive reachable : Store -> Prop :=
| reachable_empty : reachable empty_store
| reachable_run c st : reachable st -> reachable (run c st).

(** *** Invariants *)

(** No two stored records share an e-mail address. *)
Definition unique_emails (m : JsMap.t StoredUser.t) : Prop :=
  NoDup (map StoredUser.email (JsMap.values m)).

(** Every record sits under its own [id]. *)
Definition keyed_by_id (m : JsMap.t StoredUser.t) : Prop :=
  Forall (fun e => fst e = StoredUser.id (snd e)) m.

Definition store_wf (st : Store) : Prop :=
  JsMap.wf (users st) /\ keyed_by_id (users st) /\ JsMap.wf (sessions st).

End Operations.

(* ================================================================= *)
(** ** String methods used by the token extraction and the routes *)

Module JsString.

(** [s.substring(n)] *)
Fixpoint drop (n : nat) (s : string) : string :=
  match n, s with
  | O, _ => s
  | S n', String _ s' => drop n' s'
  | S _, EmptyString => EmptyString
  end.

(** [s.startsWith(p)] *)
Definition startsWith (p s : string) : bool := String.prefix p s.

Fixpoint trimStart (s : string) : string :=
  match s with
  | EmptyString => EmptyString
  | String c s' => if Regex.whitespace c then trimStart s' else s
  end.

Fixpoint trimEnd (s : string) : string :=
  match s with
  | EmptyString => EmptyString
  | String c s' =>
      match trimEnd s' with
      | EmptyString => if Regex.whitespace c then EmptyString
                       else String c EmptyString
      | rest => String c rest
      end
  end.

(** [s.trim()] *)
Definition trim (s : string) : string := trimEnd (trimStart s).

(** [s.split(sep)] for a separator of one character. *)
Fixpoint split (sep : ascii) (s : string) : list string :=
  match s with
  | EmptyString => [EmptyString]
  | String c s' =>
      if Ascii.eqb c sep then EmptyString :: split sep s'
      else
        match split sep s' with
        | [] => [String c EmptyString]
        | w :: ws => String c w :: ws
        end
  end.

(** [s.replace(c, by)] for a pattern of one character: the first
    occurrence only. *)
Fixpoint replace (c : ascii) (by_ : string) (s : string) : string :=
  match s with
  | EmptyString => EmptyString
  | String a s' => if Ascii.eqb a c then by_ ++ s' else String a (replace c by_ s')
  end.

(** [c] is one of the characters of [s]. *)
Fixpoint mem (c : ascii) (s : string) : bool :=
  match s with
  | EmptyString => false
  | String a s' => Ascii.eqb a c || mem c s'
  end.

(** Some character of [s] satisfies [p]. *)
Fixpoint any (p : ascii -> bool) (s : string) : bool :=
  match s with
  | EmptyString => false
  | String a s' => p a || any p s'
  end.

End JsString.

(* ================================================================= *)
(** ** [extractTokenFromRequest] and the routes that call the module *)

(** What [request.headers.get] answers for the two headers the module
    reads; [None] is [null]. *)
Module Request.
Record t := {
  authorization : option string;
  cookie : option string
}.
End Request.

(** [acc[key] = value] on an object literal, [None] being [undefined]: an
    assignment to [__proto__] of a value that is not an object does
    nothing. *)
Definition object_set (key : string) (value : option string)
    (acc : JsMap.t (option string)) : JsMap.t (option string) :=
  if String.eqb key "__proto__" then acc else JsMap.set key value acc.

(** The callback of the [reduce] over the cookies. *)
Definition cookie_step (acc : JsMap.t (option string)) (cookie : string)
  : JsMap.t (option string) :=
  match JsString.split "=" (JsString.trim cookie) with
  | [] => acc
  | key :: rest => object_set key (nth_error rest 0) acc
  end.

Definition parse_cookies (cookieHeader : string) : JsMap.t (option string) :=
  fold_left cookie_step (JsString.split ";" cookieHeader) JsMap.empty.

(** [cookies.token || null] *)
Definition token_or_null (cookies : JsMap.t (option string)) : option string :=
  match JsMap.get "token" cookies with
  | Some (Some v) => if String.eqb v "" then None else Some v
  | _ => None
  end.

Definition extractTokenFromRequest (request : Request.t) : option string :=
  let authHeader := Request.authorization request in
  let bearer :=
    match authHeader with
    | Some h => JsString.startsWith "Bearer " h
    | None => false
    end in
  if bearer then option_map (JsString.drop 7) authHeader
  else
    match Request.cookie request with
    | Some cookieHeader =>
        if String.eqb cookieHeader "" then None
        else token_or_null (parse_cookies cookieHeader)
    | None => None
    end.

(** The JSON bodies the routes answer with; [None] is an absent key. *)
Module Body.
Record t (D : Type) := {
  success : bool;
  user : option User.t;
  data : option D;
  error : option string;
  message : option string
}.
Arguments success {D} _.
Arguments user {D} _.
Arguments data {D} _.
Arguments error {D} _.
Arguments message {D} _.

Definition failure {D} (msg : string) : t D :=
  {| success := false; user := None; data := None;
     error := Some msg; message := None |}.
End Body.

(** [NextResponse.json(body, { status })] *)
Module Response.
Record t (D : Type) := { status : Z; body : Body.t D }.
Arguments status {D} _.
Arguments body {D} _.
End Response.

(** [ApiResponse<T>] of [src/types/index.ts]. *)
Module ApiResponse.
Record t (D : Type) := {
  success : bool;
  data : option D;
  error : option string;
  message : option string
}.
Arguments success {D} _.
Arguments data {D} _.
Arguments error {D} _.
Arguments message {D} _.
End ApiResponse.

Section Routes.

Context {L : Libraries}.

(** A string in a condition: the empty string is falsy. *)
Definition truthy (o : option string) : bool :=
  match o with
  | Some s => negb (String.eqb s "")
  | None => false
  end.

(** [GET] of [app/api/auth/me/route.ts]. *)
Definition GET_me (st : Store) (request : Request.t) (now : Z)
  : Response.t unit :=
  match extractTokenFromRequest request with
  | Some token =>
      if String.eqb token "" then
        {| Response.status := 401; Response.body := Body.failure "No token provided" |}
      else
        match getUserByToken st token now with
        | None =>
            {| Response.status := 401;
               Response.body := Body.failure "Invalid token" |}
        | Some u =>
            {| Response.status := 200;
               Response.body :=
                 {| Body.success := true; Body.user := Some u;
                    Body.data := None; Body.error := None;
                    Body.message := Some "User retrieved successfully" |} |}
        end
  | None =>
      {| Response.status := 401; Response.body := Body.failure "No token provided" |}
  end.

(** [const user = token ? await getUserByToken(token) : null], the first
    step of the Linode and Paystack routes. *)
Definition route_user (st : Store) (request : Request.t) (now : Z)
  : option User.t :=
  match extractTokenFromRequest request with
  | Some token =>
      if String.eqb token "" then None else getUserByToken st token now
  | None => None
  end.

(** [GET] of the Linode types route; [result] is what
    [linodeApi.getTypes()] resolves to, which catches its own errors. *)
Definition GET_types {D} (st : Store) (request : Request.t) (now : Z)
    (result : ApiResponse.t D) : Response.t D :=
  match route_user st request now with
  | None =>
      {| Response.status := 401; Response.body := Body.failure "Unauthorized" |}
  | Some _ =>
      if ApiResponse.success result then
        {| Response.status := 200;
           Response.body :=
             {| Body.success := true; Body.user := None;
                Body.data := ApiResponse.data result; Body.error := None;
                Body.message := Some "Linode types retrieved successfully" |} |}
      else
        {| Response.status := 500;
           Response.body :=
             {| Body.success := false; Body.user := None; Body.data := None;
                Body.error := ApiResponse.error result;
                Body.message := None |} |}
  end.

(** [`cus_${user.email.replace('@', '_').replace('.', '_')}`] of the
    billing route. *)
Definition customerCode (u : User.t) : string :=
  "cus_" ++ JsString.replace "." "_" (JsString.replace "@" "_" (User.email u)).

End Routes.

(* ================================================================= *)
(** ** Payment methods of the billing overview ([lib/api/paystack.ts]) *)

Module PaystackAuthorization.
Record t := {
  authorization_code : string;
  bin : string;
  last4 : string;
  exp_month : string;
  exp_year : string;
  channel : string;
  card_type : string;
  bank : string;
  country_code : string;
  brand : string;
  reusable : bool;
  signature : string;
  account_name : option string
}.
End PaystackAuthorization.

Module PaymentMethod.
Inductive kind : Type := card | bank_account.

Record t := {
  id : string;
  type : kind;
  last4 : string;
  brand : option string;
  exp_month : option string;
  exp_year : option string;
  is_default : bool;
  authorization_code : option string
}.
End PaymentMethod.

Section PaymentMethods.

(** A transaction is read through its [authorization] only. *)
Variable Transaction : Type.
Variable authorization : Transaction -> option PaystackAuthorization.t.

(** [seenAuthorizations.has(code)] on the codes added so far. *)
Definition seen_has (seen : list string) (code : string) : bool :=
  existsb (String.eqb code) seen.

(** The callback of [transactions.forEach] in [getBillingOverview]; the
    state is [seenAuthorizations] and [paymentMethods]. *)
Definition payment_step (state : list string * list PaymentMethod.t)
    (txn : Transaction) : list string * list PaymentMethod.t :=
  let '(seenAuthorizations, paymentMethods) := state in
  match authorization txn with
  | Some a =>
      if negb (seen_has seenAuthorizations
                 (PaystackAuthorization.authorization_code a))
      then
        ((seenAuthorizations ++
          [PaystackAuthorization.authorization_code a])%list,
         (paymentMethods ++
          [{| PaymentMethod.id := PaystackAuthorization.authorization_code a;
              PaymentMethod.type := PaymentMethod.card;
              PaymentMethod.last4 := PaystackAuthorization.last4 a;
              PaymentMethod.brand := Some (PaystackAuthorization.brand a);
              PaymentMethod.exp_month :=
                Some (PaystackAuthorization.exp_month a);
              PaymentMethod.exp_year :=
                Some (PaystackAuthorization.exp_year a);
              PaymentMethod.is_default :=
                Nat.eqb (List.length paymentMethods) 0;
              PaymentMethod.authorization_code :=
                Some (PaystackAuthorization.authorization_code a) |}])%list)
      else state
  | None => state
  end.

Definition payment_methods (transactions : list Transaction)
  : list PaymentMethod.t :=
  snd (fold_left payment_step transactions ([], [])).

End PaymentMethods.

(* ================================================================= *)
(** ** Notions used in the statements about the callers *)

(** A cookie value that survives the parsing: not empty, and free of white
    space, [;] and [=]. *)
Definition cookie_value_ok (v : string) : bool :=
  negb (String.eqb v "") &&
  negb (JsString.any
          (fun c => Regex.whitespace c || Ascii.eqb c ";" || Ascii.eqb c "=") v).

(** A part of an e-mail address as [validateEmail] wants it: not empty, and
    free of white space and of [@]. *)
Definition email_part (s : string) : Prop :=
  s <> "" /\
  JsString.any (fun c => Regex.whitespace c || Ascii.eqb c "@") s = false.

(** Every session names a user of the registry. *)
Definition sessions_reference_users (st : Store) : Prop :=
  forall sessionId session,
    In (sessionId, session) (sessions st) ->
    JsMap.has (Session.userId session) (users st) = true.

(** A sequence of calls, the first one first. *)
Definition run_all {L : Libraries} (calls : list Call) (st : Store) : Store :=
  fold_left (fun s c => run c s) calls st.

(** Only white space. *)
Definition blank (ws : string) : bool :=
  negb (JsString.any (fun c => negb (Regex.whitespace c)) ws).

(** The [Authorization] header is absent or does not start with
    ['Bearer ']. *)
Definition no_bearer (request : Request.t) : bool :=
  match Request.authorization request with
  | Some h => negb (JsString.startsWith "Bearer " h)
  | None => true
  end.

(** Where a cookie may start in a [Cookie] header: at the beginning or
    after a [;]. *)
Definition cookie_boundary (lead : string) : Prop :=
  lead = "" \/ exists before, lead = before ++ ";".

(* ================================================================= *)
(** ** A small instance of the libraries

    Stand-ins with the interface of [Libraries], used to run the operations
    on concrete inputs.  The hash keeps the password readable and the token
    is a [|]-separated payload followed by [~] and a checksum; only the
    shape of the answers is that of the real libraries. *)

Module Reference.

Definition hash (password : string) (rounds : Z) (salt : string) : string :=
  "$2b$" ++ number_to_string rounds ++ "$" ++ password.

Definition compare (password hashed : string) : bool :=
  String.eqb hashed (hash password 12 "").

Fixpoint split_on (sep : ascii) (s : string) : list string :=
  match s with
  | EmptyString => [EmptyString]
  | String c s' =>
      if Ascii.eqb c sep then EmptyString :: split_on sep s'
      else
        match split_on sep s' with
        | [] => [String c EmptyString]
        | w :: ws => String c w :: ws
        end
  end.

Fixpoint checksum (acc : Z) (s : string) : Z :=
  match s with
  | EmptyString => acc
  | String c s' => checksum ((acc * 31 + Z.of_N (N_of_ascii c)) mod 1000003) s'
  end.

Definition mac (payload : string) : string :=
  number_to_string (checksum 17 payload).

Definition role_name (r : Role.t) : string :=
  match r with Role.admin => "admin" | Role.user => "user" end.

Definition role_of_name (s : string) : option Role.t :=
  if String.eqb s "admin" then Some Role.admin
  else if String.eqb s "user" then Some Role.user
  else None.

Definition date_name (d : option Z) : string :=
  match d with Some n => number_to_string n | None => "-" end.

(** [None]: not a number; [Some None]: the claim is absent. *)
Definition date_of_name (s : string) : option (option Z) :=
  if String.eqb s "-" then Some None
  else option_map (fun i => Some (Z.of_int i)) (NilZero.int_of_string s).

Definition encode (c : JWTPayload.t) : string :=
  JWTPayload.userId c ++ "|" ++ JWTPayload.email c ++ "|"
  ++ role_name (JWTPayload.role c) ++ "|"
  ++ date_name (JWTPayload.iat c) ++ "|" ++ date_name (JWTPayload.exp c).

Definition decode (p : string) : option JWTPayload.t :=
  match split_on "|" p with
  | [uid; em; ro; ia; ex] =>
      match role_of_name ro, date_of_name ia, date_of_name ex with
      | Some r, Some i, Some e =>
          Some {| JWTPayload.userId := uid; JWTPayload.email := em;
                  JWTPayload.role := r; JWTPayload.iat := i;
                  JWTPayload.exp := e |}
      | _, _, _ => None
      end
  | _ => None
  end.

Definition sign (c : JWTPayload.t) : option string :=
  Some (encode c ++ "~" ++ mac (encode c)).

Definition verify (token : string) (now : Z) : JWTPayload.t + JOSEError :=
  match split_on "~" token with
  | [p; sig] =>
      if negb (String.eqb sig (mac p)) then inr JWSSignatureVerificationFailed
      else
        match decode p with
        | None => inr JWTInvalid
        | Some c =>
            match JWTPayload.exp c with
            | Some e => if e <=? epoch now then inr JWTExpired else inl c
            | None => inl c
            end
        end
  | _ => inr JWSInvalid
  end.

Definition libraries : Libraries :=
  {| bcrypt_hash := hash;
     bcrypt_compare := compare;
     jose_sign := sign;
     jwtVerify := verify |}.

(** The store after [initializeUsers], run with nothing in between: the
    administrator is written at clock reading 1000, the demo user at 1200. *)
Definition seeded : Store :=
  @initializeUsers libraries empty_store 1000 1000 "s1" 1200 1200 "s2".

(** A registration and a login on the seeded store. *)
Definition registered : Store * AuthResult.t :=
  @registerUser libraries seeded
    "new@x.com" "Str0ng!Pass" "New" 1700000000000 "salt" "0.4fzyo82mvyr".

Definition logged_in : Store * AuthResult.t :=
  @authenticateUser libraries seeded
    "user@demo.com" "user123!" 1700000000000 "0.4fzyo82mvyr".

(** The administrator logs in within the same millisecond, and
    [Math.random()] gives the same number again. *)
Definition logged_in_again : Store * AuthResult.t :=
  @authenticateUser libraries (fst logged_in)
    "admin@cloudpro.dev" "admin123!" 1700000000000 "0.4fzyo82mvyr".

End Reference.

(** Two calls of [registerUser] with one address on the seeded store, the
    second started while the first is hashing its password: both run their
    first stretch on the seeded store, then each writes. *)
Module Overlap.

Definition first_check : option AuthResult.t :=
  @registerUser_check Reference.seeded "dup@x.com" "Str0ng!Pass".

Definition second_check : option AuthResult.t :=
  @registerUser_check Reference.seeded "dup@x.com" "Other!Pass9".

Definition first_write : Store * AuthResult.t :=
  @registerUser_store Reference.libraries Reference.seeded
    "dup@x.com" "Str0ng!Pass" "First" 1700000000000 "salt1" "0.4fzyo82mvyr".

Definition second_write : Store * AuthResult.t :=
  @registerUser_store Reference.libraries (fst first_write)
    "dup@x.com" "Other!Pass9" "Second" 1700000000007 "salt2" "0.9k2jd81xq0c".

(** The second registrant logs in with the password it registered. *)
Definition second_login : Store * AuthResult.t :=
  @authenticateUser Reference.libraries (fst second_write)
    "dup@x.com" "Other!Pass9" 1700000001000 "0.7h3nd0qpl2z".

(** A registration of the administrator's address started while the module
    is still hashing the first seed password: its first stretch runs on the
    empty store, it writes, and then the seeding writes. *)
Definition early_check : option AuthResult.t :=
  @registerUser_check empty_store "admin@cloudpro.dev" "Str0ng!Pass".

Definition early_write : Store * AuthResult.t :=
  @registerUser_store Reference.libraries empty_store
    "admin@cloudpro.dev" "Str0ng!Pass" "Early" 900 "salt" "0.4fzyo82mvyr".

Definition seeded_late : Store :=
  @initializeUsers_demo Reference.libraries
    (@initializeUsers_admin Reference.libraries (fst early_write)
       1000 1000 "s1")
    1200 1200 "s2".

End Overlap.

(* ================================================================= *)
(** ** What the specification says, in its own words *)

(** The password policy: the five rules and when a password meets one. *)
Module Policy.

Inductive Rule : Type :=
| MinLength
| HasLowercase
| HasUppercase
| HasDigit
| HasSpecial.

Definition all_rules : list Rule :=
  [MinLength; HasLowercase; HasUppercase; HasDigit; HasSpecial].

(** [c] occurs in [s]. *)
Definition occurs (c : ascii) (s : string) : Prop :=
  exists u v, s = u ++ String c v.

Definition between (lo hi : ascii) (c : ascii) : Prop :=
  (N_of_ascii lo <= N_of_ascii c <= N_of_ascii hi)%N.

Definition special_characters : list ascii :=
  ["@"; "$"; "!"; "%"; "*"; "?"; "&"]%char.

Definition meets (r : Rule) (password : string) : Prop :=
  match r with
  | MinLength => (8 <= String.length password)%nat
  | HasLowercase => exists c, occurs c password /\ between "a" "z" c
  | HasUppercase => exists c, occurs c password /\ between "A" "Z" c
  | HasDigit => exists c, occurs c password /\ between "0" "9" c
  | HasSpecial => exists c, occurs c password /\ In c special_characters
  end.

(** The message under which the source reports a violated rule. *)
Definition message (r : Rule) : string :=
  match r with
  | MinLength => "Password must be at least 8 characters long"
  | HasLowercase => "Password must contain at least one lowercase letter"
  | HasUppercase => "Password must contain at least one uppercase letter"
  | HasDigit => "Password must contain at least one number"
  | HasSpecial =>
      "Password must contain at least one special character (@$!%*?&)"
  end.

End Policy.

(** The contract of [bcryptjs] that the registration property rests on: a
    hash verifies against the password it was made from, and is never that
    password itself. *)
Definition bcrypt_contract (L : Libraries) : Prop :=
  forall password salt : string,
    bcrypt_compare password (bcrypt_hash password saltRounds salt) = true /\
    bcrypt_hash password saltRounds salt <> password.

(** The contract of [jose] for one issued token: before the [exp] claim the
    token verifies to its claims, after it [jwtVerify] throws [JWTExpired]. *)
Definition jose_honours (L : Libraries) (token : string) (c : JWTPayload.t)
  : Prop :=
  forall now e,
    JWTPayload.exp c = Some e ->
    (epoch now < e -> jwtVerify token now = inl c) /\
    (e < epoch now -> jwtVerify token now = inr JWTExpired).

(* ================================================================= *)
(** ** Notions used in the statements *)

(** The payload both operations sign for a stored record. *)
Definition payload_of (u : StoredUser.t) : TokenPayload.t :=
  {| TokenPayload.userId := StoredUser.id u;
     TokenPayload.email := StoredUser.email u;
     TokenPayload.role := StoredUser.role u;
     TokenPayload.exp := None |}.

(** The five conditions of [validatePassword], one per rule. *)
Definition violated (r : Policy.Rule) (password : string) : bool :=
  match r with
  | Policy.MinLength => Z.of_nat (String.length password) <? 8
  | Policy.HasLowercase =>
      negb (Regex.test_lookahead (contains_pattern lowercase) password)
  | Policy.HasUppercase =>
      negb (Regex.test_lookahead (contains_pattern uppercase) password)
  | Policy.HasDigit =>
      negb (Regex.test_lookahead (contains_pattern Regex.digit) password)
  | Policy.HasSpecial =>
      negb (Regex.test_lookahead (contains_pattern special) password)
  end.

(** The test of the cleanup loop on one entry. *)
Definition expired (now : Z) (e : string * Session.t) : bool :=
  Session.expiresAt (snd e) <? now.

(** The entries whose key the loop deletes while it walks [l]. *)
Definition swept (now : Z) (l : JsMap.t Session.t) (e : string * Session.t)
  : bool :=
  existsb (fun e' => expired now e' && String.eqb (fst e) (fst e')) l.

(** A user-facing record made from a stored record of [m]: the stored
    properties without [password], all of them among the seven user-facing
    field names and the other keys the stored record has. *)
Definition user_facing (m : JsMap.t StoredUser.t) (u : User.t) : Prop :=
  exists stored,
    In stored (JsMap.values m) /\
    u = userWithoutPassword stored /\
    User_properties u = rest_without "password" (StoredUser_properties stored) /\
    incl (map fst (User_properties u))
      (user_facing_fields ++ map fst (StoredUser.extra stored)) /\
    ~ In "password" (map fst (User_properties u)).


(** [updates] with its [password] key set to [pw], or without the key. *)
Definition with_password (pw : option string) (updates : PartialUser.t)
  : PartialUser.t :=
  {| PartialUser.id := PartialUser.id updates;
     PartialUser.email := PartialUser.email updates;
     PartialUser.name := PartialUser.name updates;
     PartialUser.role := PartialUser.role updates;
     PartialUser.createdAt := PartialUser.createdAt updates;
     PartialUser.updatedAt := PartialUser.updatedAt updates;
     PartialUser.profile := PartialUser.profile updates;
     PartialUser.password := pw;
     PartialUser.extra := PartialUser.extra updates |}.


(** An update object that carries a [password] key. *)
Definition password_update : PartialUser.t :=
  with_password (Some "plaintext") PartialUser.none.

(** An update object that names another id and its own [updatedAt]. *)
Definition rename_as_admin : PartialUser.t :=
  {| PartialUser.id := Some "1"; PartialUser.email := None;
     PartialUser.name := Some "Renamed"; PartialUser.role := None;
     PartialUser.createdAt := None; PartialUser.updatedAt := Some 5;
     PartialUser.profile := None; PartialUser.password := None;
     PartialUser.extra := [] |}.

(** [{ ...{ [k]: old }, ...{ [k]: new } }[k]]: the value an update leaves
    under a key. *)
Definition overridden {A} (new : option A) (old : A) : A :=
  match new with Some a => a | None => old end.

(** Some stored record has this e-mail address. *)
Definition email_taken (email : string) (st : Store) : Prop :=
  exists u, In u (JsMap.values (users st)) /\ StoredUser.email u = email.

(** The update does not write an e-mail address that another record has:
    any record with the address written is the record being updated. *)
Definition update_keeps_emails_apart (st : Store) (userId : string)
    (updates : PartialUser.t) : Prop :=
  forall e u,
    PartialUser.email updates = Some e ->
    In u (JsMap.values (users st)) ->
    StoredUser.email u = e ->
    JsMap.get userId (users st) = Some u.

(** An update that gives the demo user the administrator's address. *)
Definition take_admin_email : PartialUser.t :=
  {| PartialUser.id := None;
     PartialUser.email := Some "admin@cloudpro.dev";
     PartialUser.name := None; PartialUser.role := None;
     PartialUser.createdAt := None; PartialUser.updatedAt := None;
     PartialUser.profile := None; PartialUser.password := None;
     PartialUser.extra := [] |}.

(** C3 in the words of the specification: tokens that fail for different
    reasons get different answers from the verification. *)
Definition verifyToken_tells_failures_apart (L : Libraries) : Prop :=
  forall t1 t2 now e1 e2,
    jwtVerify t1 now = inr e1 ->
    jwtVerify t2 now = inr e2 ->
    e1 <> e2 ->
    verifyToken t1 now <> verifyToken t2 now.

Module Tokens.

(** The token of [Reference.logged_in], signed at 1700000000 seconds. *)
Definition issued : string :=
  "2|user@demo.com|user|1700000000|1700086400~117736".

(** The same token with the role rewritten. *)
Definition tampered : string :=
  "2|user@demo.com|admin|1700000000|1700086400~117736".

Definition malformed : string := "garbage".

Definition in_time : Z := 1700000001000.
Definition too_late : Z := 1700086401000.

End Tokens.

(** The claims signed for a user-facing record at clock reading [T]. *)
Definition claims_for (u : User.t) (T : Z) : JWTPayload.t :=
  token_claims
    {| TokenPayload.userId := User.id u;
       TokenPayload.email := User.email u;
       TokenPayload.role := User.role u;
       TokenPayload.exp := None |} T.

(* ================================================================= *)
(** ** Strings *)

Lemma append_nil_r (s : string) : s ++ "" = s.
Proof. induction s as [|c s IH]; simpl; [reflexivity | now rewrite IH]. Qed.

Lemma append_assoc (s1 s2 s3 : string) : (s1 ++ s2) ++ s3 = s1 ++ (s2 ++ s3).
Proof. induction s1 as [|c s1 IH]; simpl; [reflexivity | now rewrite IH]. Qed.

Lemma append_eq_nil (u v : string) : u ++ v = "" -> u = "" /\ v = "".
Proof. destruct u; simpl; [auto | discriminate]. Qed.

Lemma append_length (u v : string) :
  String.length (u ++ v) = (String.length u + String.length v)%nat.
Proof. induction u as [|c u IH]; simpl; [reflexivity | now rewrite IH]. Qed.

(* ================================================================= *)
(** ** Derivatives compute the language *)

Module RegexFacts.
Import Regex.

Lemma nullable_lang (r : t) : nullable r = true <-> lang r "".
Proof.
  split.
  - induction r; simpl; intro E; try discriminate.
    + constructor.
    + apply andb_true_iff in E as [E1 E2].
      change "" with ("" ++ ""). constructor; auto.
    + apply orb_true_iff in E as [E|E];
        [apply lang_alt_l | apply lang_alt_r]; auto.
    + constructor.
  - intro H. remember "" as w eqn:Ew.
    induction H; simpl; try discriminate; auto.
    + apply append_eq_nil in Ew as [-> ->].
      rewrite IHlang1, IHlang2; auto.
    + rewrite IHlang; auto.
    + rewrite IHlang; auto using orb_true_r.
Qed.

Lemma lang_deriv_intro (r : t) (w : string) :
  lang r w -> forall c s, w = String c s -> lang (deriv c r) s.
Proof.
  induction 1 as [ | p c0 Hp | r s u v Hu IHu Hv IHv | r s u Hu IHu
                 | r s u Hu IHu | r | r u v Hu IHu Hv IHv ];
    intros c w E; simpl.
  - discriminate.
  - injection E as -> <-. rewrite Hp. constructor.
  - destruct u as [|c' u'].
    + simpl in E. apply nullable_lang in Hu. rewrite Hu.
      apply lang_alt_r. eauto.
    + simpl in E. injection E as -> <-.
      destruct (nullable r).
      * apply lang_alt_l. constructor; eauto.
      * constructor; eauto.
  - apply lang_alt_l. eauto.
  - apply lang_alt_r. eauto.
  - discriminate.
  - destruct u as [|c' u'].
    + simpl in E. eauto.
    + simpl in E. injection E as -> <-. constructor; eauto.
Qed.

Lemma lang_deriv_elim (r : t) :
  forall c s, lang (deriv c r) s -> lang r (String c s).
Proof.
  induction r as [ | | p | r1 IH1 r2 IH2 | r1 IH1 r2 IH2 | r IH ];
    intros c s H; simpl in H.
  - inversion H.
  - inversion H.
  - destruct (p c) eqn:Ep; inversion H; subst. now constructor.
  - destruct (nullable r1) eqn:En.
    + inversion H as [ | | | ? ? ? Hl | ? ? ? Hr | | ]; subst.
      * inversion Hl as [ | | ? ? u v Hu Hv | | | | ]; subst.
        change (String c (u ++ v)) with (String c u ++ v).
        constructor; auto.
      * change (String c s) with ("" ++ String c s).
        constructor; auto. now apply nullable_lang.
    + inversion H as [ | | ? ? u v Hu Hv | | | | ]; subst.
      change (String c (u ++ v)) with (String c u ++ v).
      constructor; auto.
  - inversion H; subst; [apply lang_alt_l | apply lang_alt_r]; auto.
  - inversion H as [ | | ? ? u v Hu Hv | | | | ]; subst.
    change (String c (u ++ v)) with (String c u ++ v).
    constructor; auto.
Qed.

Lemma matches_lang (s : string) :
  forall r, matches r s = true <-> lang r s.
Proof.
  induction s as [|c s IH]; intro r; simpl.
  - apply nullable_lang.
  - rewrite IH. split.
    + apply lang_deriv_elim.
    + intro H. eapply lang_deriv_intro; eauto.
Qed.

Lemma matches_prefix_lang (s : string) :
  forall r,
    matches_prefix r s = true <-> exists u v, s = u ++ v /\ lang r u.
Proof.
  induction s as [|c s IH]; intro r; simpl.
  - rewrite orb_false_r, nullable_lang. split.
    + intro H. now exists "", "".
    + intros (u & v & E & H). symmetry in E.
      apply append_eq_nil in E as [-> _]. exact H.
  - rewrite orb_true_iff, IH, nullable_lang. split.
    + intros [H | (u & v & -> & H)].
      * now exists "", (String c s).
      * exists (String c u), v. split; [reflexivity|].
        now apply lang_deriv_elim.
    + intros (u & v & E & H). destruct u as [|c' u'].
      * now left.
      * simpl in E. injection E as <- ->. right.
        exists u', v. split; [reflexivity|].
        eapply lang_deriv_intro; eauto.
Qed.

Lemma test_lookahead_lang (r : t) (s : string) :
  test_lookahead r s = true <->
  exists w u v, s = w ++ (u ++ v) /\ lang r u.
Proof.
  induction s as [|c s IH]; simpl.
  - rewrite !orb_false_r, nullable_lang. split.
    + intro H. now exists "", "", "".
    + intros (w & u & v & E & H). symmetry in E.
      apply append_eq_nil in E as [_ E].
      apply append_eq_nil in E as [-> _]. exact H.
  - rewrite orb_true_iff, IH.
    change (nullable r || matches_prefix (deriv c r) s)%bool
      with (matches_prefix r (String c s)).
    rewrite matches_prefix_lang. split.
    + intros [(u & v & E & H) | (w & u & v & -> & H)].
      * now exists "", u, v.
      * now exists (String c w), u, v.
    + intros (w & u & v & E & H). destruct w as [|c' w'].
      * left. now exists u, v.
      * simpl in E. injection E as <- ->. right. now exists w', u, v.
Qed.

(** The lookahead [(?=.*[cls])] finds exactly an occurrence of [cls]. *)
Lemma test_contains (cls : ascii -> bool) (s : string) :
  test_lookahead (contains_pattern cls) s = true <->
  exists c, Policy.occurs c s /\ cls c = true.
Proof.
  rewrite test_lookahead_lang. unfold contains_pattern. split.
  - intros (w & u & v & -> & H).
    inversion H as [ | | ? ? u1 u2 H1 H2 | | | | ]; subst.
    inversion H2 as [ | ? c Hc | | | | | ]; subst.
    exists c. split; [|assumption].
    exists (w ++ u1), v.
    now rewrite !append_assoc.
  - intros (c & (u & v & ->) & Hc).
    exists u, (String c ""), v. split; [reflexivity|].
    change (String c "") with ("" ++ String c "").
    constructor; [apply lang_star_nil | now constructor].
Qed.

End RegexFacts.

(* ================================================================= *)
(** ** The password policy *)

Section PasswordPolicy.

Import PasswordValidation.

Lemma in_range_between (lo hi c : ascii) :
  Regex.in_range lo hi c = true <-> Policy.between lo hi c.
Proof.
  unfold Regex.in_range, Regex.code, Policy.between.
  now rewrite andb_true_iff, !N.leb_le.
Qed.

Lemma one_of_In (l : list ascii) (c : ascii) :
  Regex.one_of l c = true <-> In c l.
Proof.
  unfold Regex.one_of. rewrite existsb_exists. split.
  - intros (x & Hx & E). apply Ascii.eqb_eq in E. now subst.
  - intro H. exists c. split; [assumption | apply Ascii.eqb_refl].
Qed.

Lemma contains_meets (cls : ascii -> bool) (P : ascii -> Prop) (s : string) :
  (forall c, cls c = true <-> P c) ->
  negb (Regex.test_lookahead (contains_pattern cls) s) = true <->
  ~ (exists c, Policy.occurs c s /\ P c).
Proof.
  intro HP. rewrite negb_true_iff, <- not_true_iff_false.
  rewrite RegexFacts.test_contains.
  split; intros H (c & Hc & Hp); apply H; exists c; split; auto;
    now apply HP.
Qed.

Lemma violated_meets (r : Policy.Rule) (password : string) :
  violated r password = true <-> ~ Policy.meets r password.
Proof.
  destruct r; simpl.
  - rewrite Z.ltb_lt. lia.
  - apply contains_meets. intro c. apply in_range_between.
  - apply contains_meets. intro c. apply in_range_between.
  - apply contains_meets. intro c. apply in_range_between.
  - apply contains_meets. intro c. apply one_of_In.
Qed.

(** The list built by the five [push] statements. *)
Lemma validatePassword_errors (password : string) :
  errors (validatePassword password) =
  map Policy.message (filter (fun r => violated r password) Policy.all_rules).
Proof.
  unfold validatePassword, push_if. simpl.
  destruct (Z.of_nat (String.length password) <? 8);
    destruct (Regex.test_lookahead (contains_pattern lowercase) password);
    destruct (Regex.test_lookahead (contains_pattern uppercase) password);
    destruct (Regex.test_lookahead (contains_pattern Regex.digit) password);
    destruct (Regex.test_lookahead (contains_pattern special) password);
    reflexivity.
Qed.

Lemma validatePassword_valid (password : string) :
  valid (validatePassword password) = true <->
  errors (validatePassword password) = [].
Proof.
  unfold validatePassword. simpl.
  rewrite Nat.eqb_eq. apply length_zero_iff_nil.
Qed.

Lemma message_injective (r r' : Policy.Rule) :
  Policy.message r = Policy.message r' -> r = r'.
Proof. destruct r, r'; simpl; intro E; first [reflexivity | discriminate E]. Qed.

Lemma errors_report (password : string) (r : Policy.Rule) :
  In (Policy.message r) (errors (validatePassword password)) <->
  violated r password = true.
Proof.
  rewrite validatePassword_errors, in_map_iff. split.
  - intros (r' & E & Hin). apply message_injective in E. subst r'.
    now apply filter_In in Hin.
  - intro H. exists r. split; [reflexivity|].
    apply filter_In. split; [|assumption].
    destruct r; simpl; auto 6.
Qed.

(** C5.  For every password, [validatePassword] reports exactly the rules
    the password violates among minimum length 8, a lowercase letter, an
    uppercase letter, a digit and a character of [@$!%*?&]: a rule's message
    is in [errors] if and only if the password does not meet the rule, every
    entry of [errors] is the message of one of the five rules, no message is
    repeated, and [valid] holds exactly when all five rules are met.  On
    ["short1"] the length violation is reported; on ["Str0ng!Pass"] nothing
    is. *)
Theorem validatePassword_reports_all_violations :
  (forall password r,
      In (Policy.message r) (errors (validatePassword password)) <->
      ~ Policy.meets r password) /\
  (forall password e,
      In e (errors (validatePassword password)) ->
      exists r, e = Policy.message r) /\
  (forall password, NoDup (errors (validatePassword password))) /\
  (forall password,
      valid (validatePassword password) = true <->
      forall r, Policy.meets r password) /\
  In (Policy.message Policy.MinLength) (errors (validatePassword "short1")) /\
  errors (validatePassword "Str0ng!Pass") = [].
Proof.
  refine (conj _ (conj _ (conj _ (conj _ (conj _ _)))));
    [ intros password r | intros password e | intro password
    | intro password; split | | ].
  - rewrite errors_report. apply violated_meets.
  - rewrite validatePassword_errors, in_map_iff.
    intros (r & <- & _). now exists r.
  - rewrite validatePassword_errors.
    apply Injective_map_NoDup.
    + intros r r'. apply message_injective.
    + apply NoDup_filter. unfold Policy.all_rules.
      repeat (constructor; [simpl; intuition discriminate|]). constructor.
  - intros Hv r.
    apply validatePassword_valid in Hv.
    destruct (violated r password) eqn:E.
    + apply errors_report in E. rewrite Hv in E. destruct E.
    + destruct r; simpl in E; unfold Policy.meets.
      * apply Z.ltb_ge in E. lia.
      * apply negb_false_iff, RegexFacts.test_contains in E.
        destruct E as (c & Hc & Hr). exists c. split; auto.
        now apply in_range_between.
      * apply negb_false_iff, RegexFacts.test_contains in E.
        destruct E as (c & Hc & Hr). exists c. split; auto.
        now apply in_range_between.
      * apply negb_false_iff, RegexFacts.test_contains in E.
        destruct E as (c & Hc & Hr). exists c. split; auto.
        now apply in_range_between.
      * apply negb_false_iff, RegexFacts.test_contains in E.
        destruct E as (c & Hc & Hr). exists c. split; auto.
        now apply one_of_In.
  - intro Hall. apply validatePassword_valid.
    rewrite validatePassword_errors.
    assert (Hf : forall r, violated r password = false).
    { intro r. destruct (violated r password) eqn:E; [|reflexivity].
      apply violated_meets in E. destruct (E (Hall r)). }
    unfold Policy.all_rules.
    cbn [filter]. now rewrite !Hf.
  - vm_compute. auto.
  - vm_compute. reflexivity.
Qed.

End PasswordPolicy.

(* ================================================================= *)
(** ** The validators and the identifiers on concrete inputs *)

Example validateEmail_accepts :
  validateEmail "user@demo.com" = true /\
  validateEmail "a@b.c" = true /\
  validateEmail "first.last@mail.example.org" = true.
Proof. repeat split; reflexivity. Qed.

Example validateEmail_rejects :
  validateEmail "a@b" = false /\
  validateEmail "a b@c.d" = false /\
  validateEmail "a@@b.c" = false /\
  validateEmail "@b.c" = false /\
  validateEmail "a@b." = false /\
  validateEmail "" = false.
Proof. repeat split; reflexivity. Qed.

(** A line break between the characters does not hide them from the
    lookaheads: the search starts at every index. *)
Example validatePassword_across_lines :
  PasswordValidation.valid
    (validatePassword ("ab1!" ++ String "010" "" ++ "CDEF")) = true.
Proof. reflexivity. Qed.

Example validatePassword_only_digits :
  PasswordValidation.errors (validatePassword "12345678") =
  [ "Password must contain at least one lowercase letter";
    "Password must contain at least one uppercase letter";
    "Password must contain at least one special character (@$!%*?&)" ].
Proof. reflexivity. Qed.

Example generated_identifiers :
  new_user_id 1700000000000 "0.4fzyo82mvyr" = "user_1700000000000_4fzyo82mv" /\
  generateSessionId 1700000000000 "0.4fzyo82mvyr" =
    "session_1700000000000_4fzyo82mv".
Proof. split; reflexivity. Qed.

(* ================================================================= *)
(** ** Facts about [Map] *)

Module JsMapFacts.
Import JsMap.

Section WithValue.

Context {V : Type}.
Implicit Types (m : JsMap.t V) (k : string) (v : V).

Lemma get_set_same k v m : get k (set k v m) = Some v.
Proof.
  unfold get. induction m as [|[k' v'] m IH]; simpl.
  - now rewrite String.eqb_refl.
  - destruct (String.eqb k' k) eqn:E; simpl.
    + now rewrite String.eqb_refl.
    + now rewrite E.
Qed.

Lemma get_set_other k k' v m : k' <> k -> get k' (set k v m) = get k' m.
Proof.
  intro Hne. unfold get. induction m as [|[k0 v0] m IH]; simpl.
  - apply String.eqb_neq in Hne. rewrite String.eqb_sym in Hne.
    now rewrite Hne.
  - destruct (String.eqb k0 k) eqn:E; simpl.
    + apply String.eqb_eq in E. subst k0.
      apply not_eq_sym, String.eqb_neq in Hne. now rewrite Hne.
    + destruct (String.eqb k0 k'); [reflexivity | exact IH].
Qed.

Lemma has_get k m : has k m = false <-> get k m = None.
Proof.
  unfold has, get. induction m as [|[k' v'] m IH]; simpl.
  - tauto.
  - destruct (String.eqb k' k); simpl; [split; discriminate | exact IH].
Qed.

Lemma get_In k v m : get k m = Some v -> In (k, v) m.
Proof.
  unfold get. induction m as [|[k' v'] m IH]; simpl; [discriminate|].
  destruct (String.eqb k' k) eqn:E; simpl.
  - apply String.eqb_eq in E. intros [= ->]. left. now subst.
  - auto.
Qed.

Lemma In_get k v m : wf m -> In (k, v) m -> get k m = Some v.
Proof.
  unfold wf, keys, get. induction m as [|[k' v'] m IH]; simpl; [tauto|].
  intros Hnd [E|Hin].
  - injection E as -> ->. now rewrite String.eqb_refl.
  - inversion Hnd as [|? ? Hnotin Hnd']; subst.
    destruct (String.eqb k' k) eqn:E.
    + apply String.eqb_eq in E. subst k'.
      exfalso. apply Hnotin. apply in_map_iff. now exists (k, v).
    + auto.
Qed.

(** A new key is appended. *)
Lemma set_fresh k v m : has k m = false -> set k v m = (m ++ [(k, v)])%list.
Proof.
  unfold has. induction m as [|[k' v'] m IH]; simpl; [reflexivity|].
  destruct (String.eqb k' k); simpl; [discriminate|].
  intro H. now rewrite IH.
Qed.

Lemma In_set e k v m : In e (set k v m) -> e = (k, v) \/ In e m.
Proof.
  induction m as [|[k' v'] m IH]; simpl.
  - intros [<-|[]]. now left.
  - destruct (String.eqb k' k); simpl.
    + intros [<-|H]; auto.
    + intros [<-|H]; auto. destruct (IH H); auto.
Qed.

Lemma In_values_set v0 k v m :
  In v0 (values (set k v m)) -> v0 = v \/ In v0 (values m).
Proof.
  unfold values. rewrite !in_map_iff.
  intros ([k0 v1] & E & Hin). simpl in E. subst v1.
  apply In_set in Hin as [[= -> ->]|Hin]; [now left|].
  right. now exists (k0, v0).
Qed.

Lemma keys_set k v m :
  keys (set k v m) = if has k m then keys m else (keys m ++ [k])%list.
Proof.
  unfold keys, has. induction m as [|[k' v'] m IH]; simpl; [reflexivity|].
  destruct (String.eqb k' k) eqn:E; simpl.
  - apply String.eqb_eq in E. now subst.
  - rewrite IH. now destruct (existsb _ m).
Qed.

Lemma has_In_keys k m : has k m = true <-> In k (keys m).
Proof.
  unfold has, keys. rewrite existsb_exists, in_map_iff.
  split; intros (e & H1 & H2).
  - apply String.eqb_eq in H2. now exists e.
  - exists e. split; [assumption|]. now apply String.eqb_eq.
Qed.

Lemma set_wf k v m : wf m -> wf (set k v m).
Proof.
  unfold wf. rewrite keys_set. intro H.
  destruct (has k m) eqn:E; [assumption|].
  apply NoDup_app; [assumption | repeat constructor; simpl; tauto |].
  intros x Hx [<-|[]].
  apply has_In_keys in Hx. congruence.
Qed.

Lemma delete_wf k m : wf m -> wf (delete k m).
Proof.
  unfold wf, keys, delete. induction m as [|[k' v'] m IH]; simpl; [auto|].
  intro H. inversion H as [|? ? Hnotin Hnd]; subst.
  destruct (String.eqb k' k); simpl; [auto|].
  constructor; [|auto].
  rewrite in_map_iff. intros (e & E & Hin).
  apply filter_In in Hin as [Hin _].
  apply Hnotin. apply in_map_iff. now exists e.
Qed.

(** [find] over the values after a [set] that introduces the only match. *)
Lemma find_values_set (p : V -> bool) k v m :
  find p (values m) = None -> p v = true ->
  find p (values (set k v m)) = Some v.
Proof.
  unfold values. intros Hnone Hp.
  induction m as [|[k' v'] m IH]; simpl in *.
  - now rewrite Hp.
  - destruct (p v') eqn:Ev; [discriminate|].
    destruct (String.eqb k' k); simpl.
    + now rewrite Hp.
    + rewrite Ev. auto.
Qed.

(** A [set] keeps a projection of the values duplicate-free as long as the
    only record that may already carry the new projection is the one under
    the key being written. *)
Lemma NoDup_values_set {A} (f : V -> A) k v m :
  NoDup (map f (values m)) ->
  (forall u, In u (values m) -> f u = f v -> get k m = Some u) ->
  NoDup (map f (values (set k v m))).
Proof.
  unfold values, get. induction m as [|[k' v'] m IH]; simpl; intros Hnd Hown.
  - repeat constructor. simpl. tauto.
  - inversion Hnd as [|? ? Hnotin Hnd']; subst.
    destruct (String.eqb k' k) eqn:E; simpl.
    + constructor; [|assumption].
      rewrite in_map_iff. intros (u & Eu & Hu).
      assert (Hv' : Some v' = Some u) by (apply (Hown u); auto).
      injection Hv' as ->. apply Hnotin. apply in_map_iff.
      now exists u.
    + assert (Hown' : forall u, In u (map snd m) -> f u = f v ->
                option_map snd (find (fun e => String.eqb (fst e) k) m) = Some u)
        by (intros u Hu Eu; apply Hown; auto).
      constructor; [|now apply IH].
      rewrite in_map_iff. intros (u & Eu & Hu).
      apply (In_values_set u k v m) in Hu as [->|Hu].
      * specialize (Hown v' (or_introl eq_refl) (eq_sym Eu)).
        apply (get_In k v' m) in Hown.
        apply Hnotin. apply in_map_iff. exists v'. split; [reflexivity|].
        apply in_map_iff. now exists (k, v').
      * apply Hnotin. apply in_map_iff. now exists u.
Qed.

Lemma delete_delete_filter (p : string * V -> bool) k m :
  delete k (filter p m) =
  filter (fun e => p e && negb (String.eqb (fst e) k)) m.
Proof.
  unfold delete. induction m as [|e m IH]; simpl; [reflexivity|].
  destruct (p e); simpl; [|exact IH].
  destruct (String.eqb (fst e) k); simpl; [exact IH | now rewrite IH].
Qed.

End WithValue.

End JsMapFacts.

(* ================================================================= *)
(** ** The paths through [registerUser] and [authenticateUser] *)

Section Paths.

Context {L : Libraries}.

(** [registerUser] as one body: the refusals, then the write. *)
Lemma registerUser_body st email password name now salt random36 :
  registerUser st email password name now salt random36 =
  if negb (validateEmail email) then
    (st, AuthResult.failure "Invalid email format")
  else if negb (PasswordValidation.valid (validatePassword password)) then
    (st, AuthResult.failure
           (String.concat ", "
              (PasswordValidation.errors (validatePassword password))))
  else
    match find_by_email email (users st) with
    | Some _ => (st, AuthResult.failure "User already exists")
    | None => registerUser_store st email password name now salt random36
    end.
Proof.
  unfold registerUser, registerUser_check.
  destruct (validateEmail email); cbn [negb]; [|reflexivity].
  destruct (PasswordValidation.valid (validatePassword password)); cbn [negb];
    [|reflexivity].
  destruct (find_by_email email (users st)); reflexivity.
Qed.

(** The first stretch lets a call through when the address and the password
    are accepted and no stored record has the address. *)
Lemma registerUser_check_None st email password :
  registerUser_check st email password = None <->
  validateEmail email = true /\
  PasswordValidation.valid (validatePassword password) = true /\
  find_by_email email (users st) = None.
Proof.
  unfold registerUser_check.
  destruct (validateEmail email); cbn [negb];
    [|split; [discriminate | intros (E & _); discriminate E]].
  destruct (PasswordValidation.valid (validatePassword password)); cbn [negb];
    [|split; [discriminate | intros (_ & E & _); discriminate E]].
  destruct (find_by_email email (users st));
    [split; [discriminate | intros (_ & _ & E); discriminate E]|].
  split; auto.
Qed.

(** A call that was let through on some store would have been let through
    on the empty one. *)
Lemma registerUser_check_empty st email password :
  registerUser_check st email password = None ->
  registerUser_check empty_store email password = None.
Proof.
  rewrite !registerUser_check_None. intros (Hv & Hp & _). repeat split; auto.
Qed.

(** The second stretch writes one record, under the generated id. *)
Lemma registerUser_store_users st email password name now salt random36 :
  users (fst (registerUser_store st email password name now salt random36)) =
  JsMap.set (new_user_id now random36)
    (newUser (new_user_id now random36) email name
       (hashPassword password salt) now)
    (users st)
  /\
  sessions (fst (registerUser_store st email password name now salt random36)) =
  sessions st.
Proof.
  unfold registerUser_store.
  destruct (signToken _ now); split; reflexivity.
Qed.

(** The second stretch succeeds when the token is signed. *)
Lemma registerUser_store_success st email password name now salt random36 st' r :
  registerUser_store st email password name now salt random36 = (st', r) ->
  AuthResult.success r = true ->
  let userId := new_user_id now random36 in
  let u := newUser userId email name (hashPassword password salt) now in
  st' = {| users := JsMap.set userId u (users st); sessions := sessions st |} /\
  exists token,
    signToken (payload_of u) now = Some token /\
    r = AuthResult.ok (userWithoutPassword u) token.
Proof.
  unfold registerUser_store. intros E Hs.
  fold (payload_of
          (newUser (new_user_id now random36) email name
             (hashPassword password salt) now)) in E.
  destruct (signToken _ now) as [token|] eqn:Et;
    injection E as <- <-; [|discriminate Hs].
  split; auto. now exists token.
Qed.

(** [registerUser] succeeds on one path only. *)
Lemma registerUser_success st email password name now salt random36 st' r :
  registerUser st email password name now salt random36 = (st', r) ->
  AuthResult.success r = true ->
  let userId := new_user_id now random36 in
  let u := newUser userId email name (hashPassword password salt) now in
  validateEmail email = true /\
  PasswordValidation.valid (validatePassword password) = true /\
  find_by_email email (users st) = None /\
  st' = {| users := JsMap.set userId u (users st); sessions := sessions st |} /\
  exists token,
    signToken (payload_of u) now = Some token /\
    r = AuthResult.ok (userWithoutPassword u) token.
Proof.
  rewrite registerUser_body. intros E Hs.
  destruct (validateEmail email); cbn [negb] in E;
    [|injection E as <- <-; discriminate Hs].
  destruct (PasswordValidation.valid (validatePassword password)); cbn [negb] in E;
    [|injection E as <- <-; discriminate Hs].
  destruct (find_by_email email (users st));
    [injection E as <- <-; discriminate Hs|].
  destruct (registerUser_store_success _ _ _ _ _ _ _ _ _ E Hs) as (-> & Ht).
  repeat split; auto.
Qed.

(** Every path of [registerUser] leaves the sessions alone. *)
Lemma registerUser_sessions st email password name now salt random36 :
  sessions (fst (registerUser st email password name now salt random36)) =
  sessions st.
Proof.
  rewrite registerUser_body.
  destruct (validateEmail email); cbn [negb]; [|reflexivity].
  destruct (PasswordValidation.valid (validatePassword password)); cbn [negb];
    [|reflexivity].
  destruct (find_by_email email (users st)); [reflexivity|].
  apply registerUser_store_users.
Qed.

(** [authenticateUser] succeeds on one path only. *)
Lemma authenticateUser_success st email password now random36 st' r :
  authenticateUser st email password now random36 = (st', r) ->
  AuthResult.success r = true ->
  exists foundUser token,
    find_by_email email (users st) = Some foundUser /\
    verifyPassword password (StoredUser.password foundUser) = true /\
    signToken (payload_of foundUser) now = Some token /\
    st' = {| users := users st;
             sessions :=
               JsMap.set (generateSessionId now random36)
                 {| Session.userId := StoredUser.id foundUser;
                    Session.expiresAt := now + 24 * 60 * 60 * 1000 |}
                 (sessions st) |} /\
    r = AuthResult.ok (userWithoutPassword foundUser) token.
Proof.
  unfold authenticateUser. intros E Hs.
  destruct (find_by_email email (users st)) as [foundUser|];
    [|injection E as <- <-; discriminate Hs].
  destruct (verifyPassword password (StoredUser.password foundUser)) eqn:Ev;
    cbn [negb] in E; [|injection E as <- <-; discriminate Hs].
  fold (payload_of foundUser) in E.
  destruct (signToken _ now) as [token|] eqn:Et;
    injection E as <- <-; [|discriminate Hs].
  exists foundUser, token. auto.
Qed.

(** Every path of [authenticateUser] leaves the users alone. *)
Lemma authenticateUser_users st email password now random36 :
  users (fst (authenticateUser st email password now random36)) = users st.
Proof.
  unfold authenticateUser.
  destruct (find_by_email email (users st)); [|reflexivity].
  destruct (negb _); [reflexivity|].
  destruct (signToken _ now); reflexivity.
Qed.

Lemma find_by_email_In email m u :
  find_by_email email m = Some u ->
  In u (JsMap.values m) /\ StoredUser.email u = email.
Proof.
  unfold find_by_email. intro H. apply find_some in H as [Hin E].
  now apply String.eqb_eq in E.
Qed.

Lemma find_by_email_None email m :
  find_by_email email m = None <->
  forall u, In u (JsMap.values m) -> StoredUser.email u <> email.
Proof.
  unfold find_by_email. split.
  - intros H u Hu. apply (find_none _ _ H) in Hu. now apply String.eqb_neq.
  - intro H. destruct (find _ _) as [u|] eqn:E; [|reflexivity].
    apply find_some in E as [Hin E]. apply String.eqb_eq in E.
    now destruct (H u Hin).
Qed.

End Paths.

(* ================================================================= *)
(** ** Login failures *)

(** C2.  When no stored record has the e-mail address, or the password does
    not verify against the hash of the record found, [authenticateUser]
    returns the one value [{ success: false, error: 'Invalid credentials' }]
    and leaves the store as it was: the two causes give the same result. *)
Theorem authenticateUser_invalid_credentials {L : Libraries}
    (st : Store) (email password : string) (now : Z) (random36 : string) :
  (find_by_email email (users st) = None \/
   exists u, find_by_email email (users st) = Some u /\
             verifyPassword password (StoredUser.password u) = false) ->
  authenticateUser st email password now random36 =
  (st, AuthResult.failure "Invalid credentials").
Proof.
  unfold authenticateUser. intros [-> | (u & -> & ->)]; reflexivity.
Qed.

Lemma authenticateUser_invalid_credentials_witness :
  @authenticateUser Reference.libraries Reference.seeded
    "nouser@x.com" "anything" 1700000000000 "0.4fzyo82mvyr" =
  (Reference.seeded, AuthResult.failure "Invalid credentials") /\
  @authenticateUser Reference.libraries Reference.seeded
    "user@demo.com" "wrongpass" 1700000000000 "0.4fzyo82mvyr" =
  (Reference.seeded, AuthResult.failure "Invalid credentials").
Proof.
  split.
  - apply (@authenticateUser_invalid_credentials Reference.libraries).
    left. reflexivity.
  - apply (@authenticateUser_invalid_credentials Reference.libraries).
    right. eexists. split; reflexivity.
Defined.

(* ================================================================= *)
(** ** Registration *)

(** C10.  Whenever a registration succeeds, whether the call ran through at
    once ([registerUser]) or wrote after other calls had run
    ([registerUser_store] on the store it found), the user it returns has
    role ['user'], and so has the record it stored, which is the one under
    the returned id.  When the call ran through at once, or more generally
    when no record had the address on the store it wrote on, that record is
    also the one found by the e-mail address. *)
Theorem registerUser_assigns_user_role {L : Libraries}
    (st st' : Store) (email password name : string) (now : Z)
    (salt random36 : string) (r : AuthResult.t) :
  registerUser st email password name now salt random36 = (st', r) \/
  registerUser_store st email password name now salt random36 = (st', r) ->
  AuthResult.success r = true ->
  exists u stored,
    AuthResult.user r = Some u /\
    User.role u = Role.user /\
    JsMap.get (User.id u) (users st') = Some stored /\
    (registerUser st email password name now salt random36 = (st', r) \/
     find_by_email email (users st) = None ->
     find_by_email email (users st') = Some stored) /\
    StoredUser.role stored = Role.user.
Proof.
  intros E Hs.
  assert (Hstore :
            registerUser_store st email password name now salt random36 =
            (st', r)).
  { destruct E as [E|E]; [|exact E].
    pose proof (registerUser_success _ _ _ _ _ _ _ _ _ E Hs)
      as (Hv & Hp & Hnone & _).
    rewrite registerUser_body, Hv, Hp, Hnone in E. exact E. }
  assert (Hfree :
            registerUser st email password name now salt random36 = (st', r) \/
            find_by_email email (users st) = None ->
            find_by_email email (users st) = None).
  { intros [E1|E1]; [|exact E1].
    now destruct (registerUser_success _ _ _ _ _ _ _ _ _ E1 Hs)
      as (_ & _ & Hnone & _). }
  destruct (registerUser_store_success _ _ _ _ _ _ _ _ _ Hstore Hs)
    as (-> & token & _ & ->).
  eexists. eexists. simpl.
  split; [reflexivity|]. split; [reflexivity|].
  split; [apply JsMapFacts.get_set_same|].
  split; [|reflexivity].
  intro H. apply JsMapFacts.find_values_set; [exact (Hfree H)|].
  simpl. apply String.eqb_refl.
Qed.

Lemma registerUser_assigns_user_role_witness :
  AuthResult.success (snd Reference.registered) = true /\
  (exists u stored,
    AuthResult.user (snd Reference.registered) = Some u /\
    User.role u = Role.user /\
    JsMap.get (User.id u) (users (fst Reference.registered)) = Some stored /\
    find_by_email "new@x.com" (users (fst Reference.registered)) = Some stored /\
    StoredUser.role stored = Role.user) /\
  AuthResult.success (snd Overlap.second_write) = true /\
  (exists u stored,
    AuthResult.user (snd Overlap.second_write) = Some u /\
    User.role u = Role.user /\
    JsMap.get (User.id u) (users (fst Overlap.second_write)) = Some stored /\
    StoredUser.role stored = Role.user).
Proof.
  split; [reflexivity|]. split.
  - destruct (@registerUser_assigns_user_role Reference.libraries
                Reference.seeded (fst Reference.registered) "new@x.com"
                "Str0ng!Pass" "New" 1700000000000 "salt" "0.4fzyo82mvyr"
                (snd Reference.registered) (or_introl eq_refl) eq_refl)
      as (u & stored & Hu & Hr & Hg & Hf & Hs).
    exists u, stored. repeat split; auto.
  - split; [reflexivity|].
    destruct (@registerUser_assigns_user_role Reference.libraries
                (fst Overlap.first_write) (fst Overlap.second_write)
                "dup@x.com" "Other!Pass9" "Second" 1700000000007 "salt2"
                "0.9k2jd81xq0c" (snd Overlap.second_write)
                (or_intror eq_refl) eq_refl)
      as (u & stored & Hu & Hr & Hg & _ & Hs).
    exists u, stored. repeat split; auto.
Defined.

(** The stand-in hash meets the contract of the hashing library. *)
Lemma reference_bcrypt_contract : bcrypt_contract Reference.libraries.
Proof.
  intros password salt. split.
  - apply String.eqb_refl.
  - simpl. unfold Reference.hash. intro E.
    apply (f_equal String.length) in E.
    rewrite !append_length in E. simpl in E. lia.
Qed.

(** A registration stores the hash of its password under the id it
    returns.  The record found by the address is that record when no record
    had the address on the store the call wrote on, as when nothing runs
    between its two stretches. *)
Lemma registerUser_store_hash {L : Libraries}
    (st st' : Store) (email password name : string) (now : Z)
    (salt random36 : string) (r : AuthResult.t) :
  bcrypt_contract L ->
  registerUser_store st email password name now salt random36 = (st', r) ->
  AuthResult.success r = true ->
  exists u stored,
    AuthResult.user r = Some u /\
    JsMap.get (User.id u) (users st') = Some stored /\
    StoredUser.password stored = hashPassword password salt /\
    StoredUser.password stored <> password /\
    verifyPassword password (StoredUser.password stored) = true /\
    (find_by_email email (users st) = None ->
     find_by_email email (users st') = Some stored).
Proof.
  intros Hlib E Hs.
  destruct (registerUser_store_success _ _ _ _ _ _ _ _ _ E Hs)
    as (-> & token & _ & ->).
  destruct (Hlib password salt) as [Hverify Hdiff].
  eexists. eexists. simpl.
  split; [reflexivity|].
  split; [apply JsMapFacts.get_set_same|].
  split; [reflexivity|]. split; [exact Hdiff|]. split; [exact Hverify|].
  intro Hnone. apply JsMapFacts.find_values_set; [exact Hnone|].
  simpl. apply String.eqb_refl.
Qed.

(** C6.  Two calls of [registerUser] with the address [dup@x.com] and
    different passwords, the second started while the first hashes: both
    pass the duplicate test on the seeded store, both write and both
    succeed.  The record then found by the address is the first call's: it
    is not the record the second call stored under the id it returned, and
    the second password does not verify against its hash, although the
    library meets its contract; the second registrant's login is refused
    with ['Invalid credentials']. *)
Theorem overlapping_registration_finds_other_record :
  bcrypt_contract Reference.libraries /\
  Overlap.first_check = None /\
  Overlap.second_check = None /\
  AuthResult.success (snd Overlap.first_write) = true /\
  AuthResult.success (snd Overlap.second_write) = true /\
  (exists u mine found,
     AuthResult.user (snd Overlap.second_write) = Some u /\
     JsMap.get (User.id u) (users (fst Overlap.second_write)) = Some mine /\
     @verifyPassword Reference.libraries "Other!Pass9"
       (StoredUser.password mine) = true /\
     find_by_email "dup@x.com" (users (fst Overlap.second_write)) = Some found /\
     StoredUser.name found = "First" /\
     found <> mine /\
     @verifyPassword Reference.libraries "Other!Pass9"
       (StoredUser.password found) = false) /\
  snd Overlap.second_login = AuthResult.failure "Invalid credentials".
Proof.
  split; [exact reference_bcrypt_contract|].
  split; [reflexivity|]. split; [reflexivity|].
  split; [reflexivity|]. split; [reflexivity|].
  split; [|reflexivity].
  eexists. eexists. eexists.
  split; [reflexivity|]. split; [reflexivity|]. split; [reflexivity|].
  split; [reflexivity|]. split; [reflexivity|].
  split; [discriminate | reflexivity].
Qed.

(* ================================================================= *)
(** ** Sessions *)

(** C9.  [registerUser] never touches the session map, in either stretch.
    A successful [authenticateUser] does one [sessions.set], for the user
    found, under the generated identifier, with [expiresAt] 24 hours after
    the clock reading, and changes nothing else: every entry under another
    identifier is as it was.  The identifier is not tested: when no session
    has it the entry is appended and the map grows by one; when a session
    has it that session is replaced, in place, and the map keeps its keys
    and its size. *)
Theorem login_sets_one_session_register_none {L : Libraries}
    (st : Store) (email password name : string) (now : Z)
    (salt random36 : string) :
  sessions (fst (registerUser st email password name now salt random36)) =
  sessions st /\
  sessions (fst (registerUser_store st email password name now salt random36)) =
  sessions st /\
  forall st' r,
    authenticateUser st email password now random36 = (st', r) ->
    AuthResult.success r = true ->
    exists foundUser,
      let sessionId := generateSessionId now random36 in
      let session :=
        {| Session.userId := StoredUser.id foundUser;
           Session.expiresAt := now + 24 * 60 * 60 * 1000 |} in
      find_by_email email (users st) = Some foundUser /\
      AuthResult.user r = Some (userWithoutPassword foundUser) /\
      users st' = users st /\
      sessions st' = JsMap.set sessionId session (sessions st) /\
      JsMap.get sessionId (sessions st') = Some session /\
      (forall k, k <> sessionId ->
                 JsMap.get k (sessions st') = JsMap.get k (sessions st)) /\
      (JsMap.has sessionId (sessions st) = false ->
       sessions st' = (sessions st ++ [(sessionId, session)])%list /\
       JsMap.size (sessions st') = S (JsMap.size (sessions st))) /\
      (JsMap.has sessionId (sessions st) = true ->
       JsMap.keys (sessions st') = JsMap.keys (sessions st) /\
       JsMap.size (sessions st') = JsMap.size (sessions st)).
Proof.
  split; [apply registerUser_sessions|].
  split; [apply registerUser_store_users|].
  intros st' r E Hs.
  destruct (authenticateUser_success _ _ _ _ _ _ _ E Hs)
    as (foundUser & token & Hfind & _ & _ & -> & ->).
  exists foundUser. cbn [users sessions AuthResult.user AuthResult.ok].
  split; [exact Hfind|]. split; [reflexivity|]. split; [reflexivity|].
  split; [reflexivity|].
  split; [apply JsMapFacts.get_set_same|].
  split; [intros k Hk; now apply JsMapFacts.get_set_other|].
  split; intro Hhas.
  - rewrite (JsMapFacts.set_fresh _ _ _ Hhas). split; [reflexivity|].
    unfold JsMap.size. rewrite length_app. simpl. lia.
  - assert (Hkeys :
              JsMap.keys
                (JsMap.set (generateSessionId now random36)
                   {| Session.userId := StoredUser.id foundUser;
                      Session.expiresAt := now + 24 * 60 * 60 * 1000 |}
                   (sessions st)) = JsMap.keys (sessions st))
      by (rewrite JsMapFacts.keys_set, Hhas; reflexivity).
    split; [exact Hkeys|].
    apply (f_equal (@List.length string)) in Hkeys.
    unfold JsMap.keys in Hkeys. rewrite !length_map in Hkeys. exact Hkeys.
Qed.

Lemma login_sets_one_session_register_none_witness :
  sessions (fst Reference.registered) = sessions Reference.seeded /\
  AuthResult.success (snd Reference.logged_in) = true /\
  JsMap.has "session_1700000000000_4fzyo82mv" (sessions Reference.seeded)
    = false /\
  sessions (fst Reference.logged_in) =
    (sessions Reference.seeded ++
     [("session_1700000000000_4fzyo82mv",
       {| Session.userId := "2";
          Session.expiresAt := 1700000000000 + 24 * 60 * 60 * 1000 |})])%list /\
  AuthResult.success (snd Reference.logged_in_again) = true /\
  JsMap.has "session_1700000000000_4fzyo82mv"
    (sessions (fst Reference.logged_in)) = true /\
  JsMap.size (sessions (fst Reference.logged_in_again)) =
  JsMap.size (sessions (fst Reference.logged_in)).
Proof.
  pose proof (@login_sets_one_session_register_none Reference.libraries
                Reference.seeded "user@demo.com" "user123!" "New"
                1700000000000 "salt" "0.4fzyo82mvyr") as (_ & _ & Hlogin).
  pose proof (@login_sets_one_session_register_none Reference.libraries
                Reference.seeded "new@x.com" "Str0ng!Pass" "New"
                1700000000000 "salt" "0.4fzyo82mvyr") as (Hreg & _).
  pose proof (@login_sets_one_session_register_none Reference.libraries
                (fst Reference.logged_in) "admin@cloudpro.dev" "admin123!" "New"
                1700000000000 "salt" "0.4fzyo82mvyr") as (_ & _ & Hagain).
  split; [exact Hreg|].
  split; [reflexivity|].
  split; [reflexivity|].
  destruct (Hlogin (fst Reference.logged_in) (snd Reference.logged_in)
              eq_refl eq_refl)
    as (foundUser & Hfind & _ & _ & _ & _ & _ & Hfresh & _).
  injection Hfind as <-.
  split; [exact (proj1 (Hfresh eq_refl))|].
  split; [reflexivity|].
  split; [reflexivity|].
  destruct (Hagain (fst Reference.logged_in_again)
              (snd Reference.logged_in_again) eq_refl eq_refl)
    as (admin & _ & _ & _ & _ & _ & _ & _ & Htaken).
  exact (proj2 (Htaken eq_refl)).
Defined.

(** A login that generates an identifier already in the map succeeds, adds
    no entry, and replaces the session of another user: after the demo
    user's login the administrator logs in within the same millisecond and
    draws the same random number. *)
Lemma login_overwrites_session_under_taken_id :
  AuthResult.success (snd Reference.logged_in) = true /\
  AuthResult.success (snd Reference.logged_in_again) = true /\
  JsMap.get "session_1700000000000_4fzyo82mv"
    (sessions (fst Reference.logged_in)) =
  Some {| Session.userId := "2"; Session.expiresAt := 1700086400000 |} /\
  JsMap.get "session_1700000000000_4fzyo82mv"
    (sessions (fst Reference.logged_in_again)) =
  Some {| Session.userId := "1"; Session.expiresAt := 1700086400000 |} /\
  JsMap.size (sessions (fst Reference.logged_in)) = 1%nat /\
  JsMap.size (sessions (fst Reference.logged_in_again)) = 1%nat /\
  JsMap.keys (sessions (fst Reference.logged_in_again)) =
  JsMap.keys (sessions (fst Reference.logged_in)).
Proof. repeat split; reflexivity. Qed.

Section Cleanup.

Lemma filter_andb {A} (p q : A -> bool) (l : list A) :
  filter p (filter q l) = filter (fun a => q a && p a) l.
Proof.
  induction l as [|a l IH]; simpl; [reflexivity|].
  destruct (q a); simpl; [|exact IH].
  destruct (p a); now rewrite IH.
Qed.

(** The loop deletes the keys of the expired entries it has visited. *)
Lemma cleanup_loop (now : Z) (l acc : JsMap.t Session.t) :
  fold_left (cleanup_step now) l acc =
  filter (fun e => negb (swept now l e)) acc.
Proof.
  revert acc. induction l as [|[sid s] l IH]; intro acc.
  - simpl. induction acc as [|e acc IHacc]; simpl;
      [reflexivity | now rewrite <- IHacc].
  - change (fold_left (cleanup_step now) ((sid, s) :: l) acc)
      with (fold_left (cleanup_step now) l (cleanup_step now acc (sid, s))).
    rewrite IH. unfold cleanup_step.
    destruct (Session.expiresAt s <? now) eqn:E.
    + unfold JsMap.delete. rewrite filter_andb.
      apply filter_ext. intro e.
      unfold swept. cbn [existsb]. unfold expired at 2. cbn [snd fst].
      rewrite E. cbn [andb]. now rewrite negb_orb.
    + apply filter_ext. intro e.
      unfold swept. cbn [existsb]. unfold expired at 2. cbn [snd fst].
      rewrite E. reflexivity.
Qed.

(** On a map, whose keys are distinct, the loop is a filter on expiry. *)
Lemma cleanup_is_filter (now : Z) (m : JsMap.t Session.t) :
  JsMap.wf m ->
  fold_left (cleanup_step now) (JsMap.entries m) m =
  filter (fun e => negb (expired now e)) m.
Proof.
  intro Hwf. rewrite cleanup_loop. unfold JsMap.entries.
  apply filter_ext_in. intros [k s] Hin. f_equal.
  apply eq_true_iff_eq. unfold swept. rewrite existsb_exists. split.
  - intros ([k' s'] & Hin' & H). apply andb_true_iff in H as [Hexp Hk].
    simpl in Hk. apply String.eqb_eq in Hk. subst k'.
    apply (JsMapFacts.In_get _ _ _ Hwf) in Hin, Hin'.
    congruence.
  - intro H. exists (k, s). split; [assumption|].
    rewrite H. simpl. apply String.eqb_refl.
Qed.

Lemma filter_idempotent {A} (p : A -> bool) (l : list A) :
  filter p (filter p l) = filter p l.
Proof.
  induction l as [|a l IH]; simpl; [reflexivity|].
  destruct (p a) eqn:E; simpl; [rewrite E, IH | ]; auto.
Qed.

Lemma filter_wf {V} (p : string * V -> bool) (m : JsMap.t V) :
  JsMap.wf m -> JsMap.wf (filter p m).
Proof.
  unfold JsMap.wf, JsMap.keys.
  induction m as [|e m IH]; simpl; [auto|].
  intro H. inversion H as [|? ? Hnotin Hnd]; subst.
  destruct (p e); simpl; [|auto].
  constructor; [|auto].
  rewrite in_map_iff. intros (e' & E & Hin).
  apply filter_In in Hin as [Hin _].
  apply Hnotin. apply in_map_iff. now exists e'.
Qed.

(** C8.  On a session map, [cleanupExpiredSessions] run at clock reading
    [now] removes exactly the entries with [expiresAt < now]: what is left
    is the old map filtered on [expiresAt >= now], in the old order; every
    entry left has [expiresAt >= now]; an entry of the old map is left if and
    only if it has not expired; the users are untouched; and a second run
    with the same [now] changes nothing. *)
Theorem cleanupExpiredSessions_removes_expired (st : Store) (now : Z) :
  JsMap.wf (sessions st) ->
  sessions (cleanupExpiredSessions st now) =
    filter (fun e => negb (Session.expiresAt (snd e) <? now)) (sessions st) /\
  (forall sessionId s,
      In (sessionId, s) (sessions (cleanupExpiredSessions st now)) ->
      Session.expiresAt s >= now) /\
  (forall sessionId s,
      In (sessionId, s) (sessions st) ->
      (In (sessionId, s) (sessions (cleanupExpiredSessions st now)) <->
       ~ Session.expiresAt s < now)) /\
  users (cleanupExpiredSessions st now) = users st /\
  cleanupExpiredSessions (cleanupExpiredSessions st now) now =
    cleanupExpiredSessions st now.
Proof.
  intro Hwf.
  assert (Hfilter :
            sessions (cleanupExpiredSessions st now) =
            filter (fun e => negb (expired now e)) (sessions st))
    by (apply cleanup_is_filter; exact Hwf).
  split; [exact Hfilter|].
  split; [|split; [|split]].
  - intros sid s Hin. rewrite Hfilter in Hin.
    apply filter_In in Hin as [_ H].
    unfold expired in H. simpl in H.
    apply negb_true_iff, Z.ltb_ge in H. lia.
  - intros sid s Hin. rewrite Hfilter, filter_In.
    unfold expired. simpl. rewrite negb_true_iff, Z.ltb_ge. split.
    + intros [_ H]. lia.
    + intro H. split; [assumption | lia].
  - reflexivity.
  - unfold cleanupExpiredSessions. cbn [users sessions]. f_equal.
    rewrite (cleanup_is_filter now (sessions st) Hwf).
    rewrite cleanup_is_filter;
      [apply filter_idempotent | now apply filter_wf].
Qed.

End Cleanup.

Lemma cleanupExpiredSessions_removes_expired_witness :
  JsMap.wf (sessions (fst Reference.logged_in)) /\
  sessions (cleanupExpiredSessions (fst Reference.logged_in) 1700086400001)
    = [] /\
  sessions (cleanupExpiredSessions (fst Reference.logged_in) 1700086400000)
    = sessions (fst Reference.logged_in) /\
  cleanupExpiredSessions
    (cleanupExpiredSessions (fst Reference.logged_in) 1700086400001)
    1700086400001 =
  cleanupExpiredSessions (fst Reference.logged_in) 1700086400001.
Proof.
  assert (Hwf : JsMap.wf (sessions (fst Reference.logged_in)))
    by (repeat constructor; simpl; tauto).
  split; [exact Hwf|].
  destruct (cleanupExpiredSessions_removes_expired
              (fst Reference.logged_in) 1700086400001 Hwf)
    as (Hrun & _ & _ & _ & Hagain).
  destruct (cleanupExpiredSessions_removes_expired
              (fst Reference.logged_in) 1700086400000 Hwf)
    as (Hkeep & _).
  split; [rewrite Hrun; reflexivity|].
  split; [rewrite Hkeep; reflexivity | exact Hagain].
Defined.

(* ================================================================= *)
(** ** What crosses the interface *)

Lemma has_set_kept {V} (k k' : string) (v : V) (m : JsMap.t V) :
  JsMap.has k m = true -> JsMap.has k (JsMap.set k' v m) = true.
Proof.
  rewrite !JsMapFacts.has_In_keys, JsMapFacts.keys_set.
  destruct (JsMap.has k' m); [auto|]. intro H. apply in_or_app. now left.
Qed.

Lemma other_key_not_password : other_key "password" = false.
Proof. reflexivity. Qed.

Lemma extra_properties_names (extra : list (string * JSValue)) (k : string) :
  In k (map fst (extra_properties extra)) <->
  In k (map fst extra) /\ other_key k = true.
Proof.
  unfold extra_properties. rewrite !in_map_iff. split.
  - intros (kv & <- & H). apply filter_In in H as [H1 H2].
    split; [now exists kv | exact H2].
  - intros ((kv & <- & H1) & H2). exists kv.
    split; [reflexivity|]. apply filter_In. auto.
Qed.

Lemma rest_without_extra (extra : list (string * JSValue)) :
  rest_without "password" (extra_properties extra) = extra_properties extra.
Proof.
  unfold rest_without, extra_properties. rewrite filter_andb.
  apply filter_ext. intros [k v]. cbn [fst]. unfold other_key.
  cbn [existsb]. destruct (String.eqb k "password"); cbn [orb negb andb];
    [reflexivity | apply andb_true_r].
Qed.

Lemma userWithoutPassword_properties (u : StoredUser.t) :
  User_properties (userWithoutPassword u) =
  rest_without "password" (StoredUser_properties u).
Proof.
  unfold User_properties, StoredUser_properties.
  destruct u as [i e n r c up pw pr ex].
  cbn [userWithoutPassword User.id User.email User.name User.role
       User.createdAt User.updatedAt User.profile User.extra
       StoredUser.id StoredUser.email StoredUser.name StoredUser.role
       StoredUser.createdAt StoredUser.updatedAt StoredUser.password
       StoredUser.profile StoredUser.extra].
  unfold rest_without at 1. rewrite !filter_app.
  fold (rest_without "password" (extra_properties ex)).
  rewrite rest_without_extra.
  destruct pr; reflexivity.
Qed.

Lemma User_properties_names (u : User.t) :
  incl (map fst (User_properties u))
    (user_facing_fields ++ map fst (User.extra u)) /\
  ~ In "password" (map fst (User_properties u)).
Proof.
  unfold User_properties. rewrite !map_app. split.
  - intros k Hk.
    apply in_app_or in Hk as [Hk|Hk]; [|apply in_app_or in Hk as [Hk|Hk]].
    + apply in_or_app. left. unfold user_facing_fields.
      simpl in Hk. simpl. intuition.
    + apply in_or_app. left. unfold user_facing_fields.
      destruct (User.profile u); simpl in Hk; simpl; intuition.
    + apply in_or_app. right. now apply extra_properties_names in Hk.
  - intro Hk.
    apply in_app_or in Hk as [Hk|Hk]; [|apply in_app_or in Hk as [Hk|Hk]].
    + simpl in Hk. intuition discriminate.
    + destruct (User.profile u); simpl in Hk; intuition discriminate.
    + apply extra_properties_names in Hk as [_ Hk].
      rewrite other_key_not_password in Hk. discriminate Hk.
Qed.

Lemma user_facing_intro (m : JsMap.t StoredUser.t) (k : string)
    (stored : StoredUser.t) :
  JsMap.get k m = Some stored -> user_facing m (userWithoutPassword stored).
Proof.
  intro H. exists stored.
  split; [|split; [reflexivity | split;
                   [apply userWithoutPassword_properties
                   | apply (User_properties_names (userWithoutPassword stored))]]].
  apply JsMapFacts.get_In in H.
  unfold JsMap.values. apply in_map_iff. now exists (k, stored).
Qed.









(* ================================================================= *)
(** ** Invariants of the reachable stores *)

Section Invariants.

Context {L : Libraries}.

Lemma keyed_by_id_set (k : string) (v : StoredUser.t) (m : JsMap.t StoredUser.t) :
  keyed_by_id m -> k = StoredUser.id v -> keyed_by_id (JsMap.set k v m).
Proof.
  unfold keyed_by_id. rewrite !Forall_forall. intros H Hk e He.
  apply JsMapFacts.In_set in He as [->|He]; [exact Hk | now apply H].
Qed.

Lemma users_wf_set (k : string) (v : StoredUser.t) (st : Store) (ss : JsMap.t Session.t) :
  store_wf st -> k = StoredUser.id v -> JsMap.wf ss ->
  store_wf {| users := JsMap.set k v (users st); sessions := ss |}.
Proof.
  intros (Hu & Hk & Hs) E Hss. repeat split; simpl.
  - now apply JsMapFacts.set_wf.
  - now apply keyed_by_id_set.
  - exact Hss.
Qed.

Lemma cleanup_sessions_wf (now : Z) (m : JsMap.t Session.t) :
  JsMap.wf m -> JsMap.wf (fold_left (cleanup_step now) (JsMap.entries m) m).
Proof.
  intro H. rewrite cleanup_is_filter by exact H. now apply filter_wf.
Qed.

Lemma run_store_wf (c : Call) (st : Store) : store_wf st -> store_wf (run c st).
Proof.
  intro H. pose proof H as (Hu & Hk & Hs).
  assert (Hstore : forall email password name now salt random36,
             store_wf
               (fst (registerUser_store st email password name now salt
                       random36))).
  { intros. unfold registerUser_store.
    destruct (signToken _ now); simpl; now apply users_wf_set. }
  destruct c as [created updated salt | created updated salt
                | email password now random36
                | email password name now salt random36
                | email password name now salt random36
                | userId updates now | now]; simpl.
  - unfold initializeUsers_admin. now apply users_wf_set.
  - unfold initializeUsers_demo. now apply users_wf_set.
  - unfold authenticateUser.
    destruct (find_by_email email (users st)) as [foundUser|]; [|exact H].
    destruct (negb _); [exact H|].
    destruct (signToken _ now); [|exact H].
    repeat split; simpl; auto. now apply JsMapFacts.set_wf.
  - unfold registerUser.
    destruct (registerUser_check st email password); [exact H | apply Hstore].
  - destruct (registerUser_check empty_store email password);
      [exact H | apply Hstore].
  - unfold updateUser.
    destruct (JsMap.get userId (users st)); simpl; [|exact H].
    now apply users_wf_set.
  - repeat split; simpl; auto. now apply cleanup_sessions_wf.
Qed.

Lemma reachable_store_wf (st : Store) : reachable st -> store_wf st.
Proof.
  induction 1 as [|c st _ IH].
  - repeat split; simpl; constructor.
  - now apply run_store_wf.
Qed.

Lemma reachable_run_all (calls : list Call) (st : Store) :
  reachable st -> reachable (run_all calls st).
Proof.
  unfold run_all. revert st.
  induction calls as [|c calls IH]; intros st H; simpl; [exact H|].
  apply IH. now apply reachable_run.
Qed.

(** In a well-formed store the record found by e-mail sits under its id. *)
Lemma find_by_email_get (st : Store) (email : string) (u : StoredUser.t) :
  store_wf st ->
  find_by_email email (users st) = Some u ->
  JsMap.get (StoredUser.id u) (users st) = Some u.
Proof.
  intros (Hu & Hk & _) Hf.
  apply find_by_email_In in Hf as [Hin _].
  unfold JsMap.values in Hin. apply in_map_iff in Hin as ([k v] & E & Hin).
  simpl in E. subst v.
  unfold keyed_by_id in Hk. rewrite Forall_forall in Hk.
  specialize (Hk _ Hin). simpl in Hk. subst k.
  now apply JsMapFacts.In_get.
Qed.

End Invariants.

(* ================================================================= *)
(** ** One record per e-mail address *)

Lemma NoDup_map_injective {A B} (f : A -> B) (l : list A) (x y : A) :
  NoDup (map f l) -> In x l -> In y l -> f x = f y -> x = y.
Proof.
  induction l as [|a l IH]; simpl; [tauto|].
  intros Hnd Hx Hy E. inversion Hnd as [|? ? Hnotin Hnd']; subst.
  destruct Hx as [->|Hx], Hy as [->|Hy]; auto.
  - exfalso. apply Hnotin. rewrite E. now apply in_map.
  - exfalso. apply Hnotin. rewrite <- E. now apply in_map.
Qed.

(** A registration that writes on a store where no record has its address
    keeps the addresses distinct. *)
Lemma registerUser_store_unique_emails {L : Libraries}
    (st : Store) (email password name : string) (now : Z)
    (salt random36 : string) :
  unique_emails (users st) ->
  find_by_email email (users st) = None ->
  unique_emails
    (users (fst (registerUser_store st email password name now salt random36))).
Proof.
  intros H Ef.
  rewrite (proj1 (registerUser_store_users _ _ _ _ _ _ _)).
  apply JsMapFacts.NoDup_values_set; [exact H|].
  intros u Hu E. simpl in E.
  destruct (proj1 (find_by_email_None _ _) Ef u Hu E).
Qed.

(** So does [registerUser] when nothing runs between its two stretches. *)
Lemma registerUser_unique_emails {L : Libraries}
    (st : Store) (email password name : string) (now : Z)
    (salt random36 : string) :
  unique_emails (users st) ->
  unique_emails
    (users (fst (registerUser st email password name now salt random36))).
Proof.
  intro H. rewrite registerUser_body.
  destruct (validateEmail email); cbn [negb]; [|exact H].
  destruct (PasswordValidation.valid (validatePassword password));
    cbn [negb]; [|exact H].
  destruct (find_by_email email (users st)) eqn:Ef; [exact H|].
  now apply registerUser_store_unique_emails.
Qed.

Lemma registerUser_email_taken {L : Libraries}
    (st : Store) (email password name : string) (now : Z)
    (salt random36 : string) :
  email_taken email st ->
  fst (registerUser st email password name now salt random36) = st /\
  AuthResult.success
    (snd (registerUser st email password name now salt random36)) = false /\
  (validateEmail email = true ->
   PasswordValidation.valid (validatePassword password) = true ->
   snd (registerUser st email password name now salt random36) =
   AuthResult.failure "User already exists").
Proof.
  intros (u & Hu & E). rewrite registerUser_body.
  destruct (validateEmail email); cbn [negb];
    [|repeat split; discriminate].
  destruct (PasswordValidation.valid (validatePassword password));
    cbn [negb]; [|repeat split; discriminate].
  destruct (find_by_email email (users st)) eqn:Ef; [repeat split|].
  destruct (proj1 (find_by_email_None _ _) Ef u Hu E).
Qed.

(** An update keeps the addresses distinct when the address it writes, if
    any, is not the address of another record. *)
Lemma updateUser_unique_emails (st : Store) (userId : string)
    (updates : PartialUser.t) (now : Z) :
  unique_emails (users st) ->
  update_keeps_emails_apart st userId updates ->
  unique_emails (users (fst (updateUser st userId updates now))).
Proof.
  intros H Hup. unfold updateUser.
  destruct (JsMap.get userId (users st)) as [u0|] eqn:Eg; [|exact H].
  cbn [fst users].
  apply JsMapFacts.NoDup_values_set; [exact H|].
  intros u Hu E. simpl in E.
  destruct (PartialUser.email updates) as [e|] eqn:Ee.
  - now apply (Hup e).
  - rewrite Eg. f_equal. apply (NoDup_map_injective StoredUser.email
                      (JsMap.values (users st))); auto.
    apply JsMapFacts.get_In in Eg.
    unfold JsMap.values. apply in_map_iff. now exists (userId, u0).
Qed.

Lemma seeded_unique_emails : unique_emails (users Reference.seeded).
Proof.
  unfold unique_emails. simpl.
  repeat (constructor; [simpl; intuition discriminate|]). constructor.
Qed.

Lemma reachable_seeded : @reachable Reference.libraries Reference.seeded.
Proof.
  apply (@reachable_run_all Reference.libraries
           [CallSeedAdmin 1000 1000 "s1"; CallSeedDemo 1200 1200 "s2"]),
    reachable_empty.
Qed.

(** C1.  The registry does not keep one record per address.  [registerUser]
    tests for the address before it hashes the password and writes after:
    two calls with one address, the second started while the first hashes,
    both pass the test and both write, and the reachable store that results
    has two records with the address.  In the same way a registration of
    the administrator's address that is started while the module seeds its
    users ends with two records for that address.  [updateUser], which has
    no such test, gives the demo user the administrator's address.  Each
    run starts from a registry with one record per address. *)
Theorem emails_duplicated_by_overlap_and_update :
  unique_emails (users Reference.seeded) /\
  (Overlap.first_check = None /\
   Overlap.second_check = None /\
   AuthResult.success (snd Overlap.first_write) = true /\
   AuthResult.success (snd Overlap.second_write) = true /\
   map StoredUser.email (JsMap.values (users (fst Overlap.second_write))) =
   ["admin@cloudpro.dev"; "user@demo.com"; "dup@x.com"; "dup@x.com"] /\
   ~ unique_emails (users (fst Overlap.second_write)) /\
   @reachable Reference.libraries (fst Overlap.second_write)) /\
  (Overlap.early_check = None /\
   AuthResult.success (snd Overlap.early_write) = true /\
   map StoredUser.email (JsMap.values (users Overlap.seeded_late)) =
   ["admin@cloudpro.dev"; "admin@cloudpro.dev"; "user@demo.com"] /\
   ~ unique_emails (users Overlap.seeded_late) /\
   @reachable Reference.libraries Overlap.seeded_late) /\
  (UpdateResult.success
     (snd (updateUser Reference.seeded "2" take_admin_email 2000)) = true /\
   map StoredUser.email
     (JsMap.values
        (users (fst (updateUser Reference.seeded "2" take_admin_email 2000)))) =
   ["admin@cloudpro.dev"; "admin@cloudpro.dev"] /\
   ~ unique_emails
       (users (fst (updateUser Reference.seeded "2" take_admin_email 2000))) /\
   @reachable Reference.libraries
     (fst (updateUser Reference.seeded "2" take_admin_email 2000))).
Proof.
  split; [exact seeded_unique_emails|]. split; [|split].
  - split; [reflexivity|]. split; [reflexivity|]. split; [reflexivity|].
    split; [reflexivity|]. split; [reflexivity|]. split.
    + unfold unique_emails.
      change (map StoredUser.email
                (JsMap.values (users (fst Overlap.second_write))))
        with ["admin@cloudpro.dev"; "user@demo.com"; "dup@x.com"; "dup@x.com"].
      intro H. apply NoDup_cons_iff in H as [_ H].
      apply NoDup_cons_iff in H as [_ H].
      apply NoDup_cons_iff in H as [Hnotin _]. apply Hnotin. now left.
    + replace (fst Overlap.second_write)
        with (@run_all Reference.libraries
                [CallRegister "dup@x.com" "Str0ng!Pass" "First" 1700000000000
                   "salt1" "0.4fzyo82mvyr";
                 CallRegisterLate "dup@x.com" "Other!Pass9" "Second"
                   1700000000007 "salt2" "0.9k2jd81xq0c"]
                Reference.seeded)
        by (vm_compute; reflexivity).
      apply reachable_run_all, reachable_seeded.
  - split; [reflexivity|]. split; [reflexivity|]. split; [reflexivity|]. split.
    + unfold unique_emails.
      change (map StoredUser.email (JsMap.values (users Overlap.seeded_late)))
        with ["admin@cloudpro.dev"; "admin@cloudpro.dev"; "user@demo.com"].
      intro H. inversion H as [|? ? Hnotin _]. apply Hnotin. now left.
    + replace Overlap.seeded_late
        with (@run_all Reference.libraries
                [CallRegisterLate "admin@cloudpro.dev" "Str0ng!Pass" "Early"
                   900 "salt" "0.4fzyo82mvyr";
                 CallSeedAdmin 1000 1000 "s1"; CallSeedDemo 1200 1200 "s2"]
                empty_store)
        by (vm_compute; reflexivity).
      apply reachable_run_all, reachable_empty.
  - split; [reflexivity|]. split; [reflexivity|]. split.
    + unfold unique_emails.
      change (map StoredUser.email
                (JsMap.values
                   (users (fst (updateUser Reference.seeded "2"
                                  take_admin_email 2000)))))
        with ["admin@cloudpro.dev"; "admin@cloudpro.dev"].
      intro H. inversion H as [|? ? Hnotin _]. apply Hnotin. now left.
    + apply (@reachable_run Reference.libraries
               (CallUpdate "2" take_admin_email 2000)), reachable_seeded.
Qed.

(* ================================================================= *)
(** ** Token verification *)

(** C3, as the code has it.  [verifyToken] does not tell the failures apart:
    whatever [jwtVerify] throws, for a malformed token, a wrong signature or
    an expired one alike, [verifyToken] returns [null] and [getUserByToken]
    returns [null].  A payload comes back only when [jwtVerify] accepted the
    token, and it is the payload [jwtVerify] verified; the user then returned
    is the one stored under the verified [userId]. *)
Theorem verifyToken_null_on_every_failure {L : Libraries}
    (st : Store) (token : string) (now : Z) :
  (forall e,
      jwtVerify token now = inr e ->
      verifyToken token now = None /\ getUserByToken st token now = None) /\
  (forall p,
      verifyToken token now = Some p <->
      exists c, jwtVerify token now = inl c /\ p = as_TokenPayload c) /\
  (forall u,
      getUserByToken st token now = Some u ->
      exists c, jwtVerify token now = inl c /\
                getUserById st (JWTPayload.userId c) = Some u).
Proof.
  unfold getUserByToken, verifyToken.
  destruct (jwtVerify token now) as [c|e0]; repeat split.
  - discriminate.
  - discriminate.
  - intros [= <-]. now exists c.
  - intros (c' & [= <-] & ->). reflexivity.
  - intros u Hu. now exists c.
  - discriminate.
  - intros (c' & Hc & _). discriminate Hc.
  - discriminate.
Qed.

Lemma verifyToken_null_on_every_failure_witness :
  @jwtVerify Reference.libraries Tokens.tampered Tokens.in_time =
    inr JWSSignatureVerificationFailed /\
  @verifyToken Reference.libraries Tokens.tampered Tokens.in_time = None /\
  @getUserByToken Reference.libraries Reference.seeded Tokens.tampered
    Tokens.in_time = None.
Proof.
  split; [reflexivity|].
  apply (proj1 (@verifyToken_null_on_every_failure Reference.libraries
                  Reference.seeded Tokens.tampered Tokens.in_time)
           JWSSignatureVerificationFailed).
  reflexivity.
Defined.

(** Two rejected tokens get the same answer, whatever the reasons. *)
Lemma rejected_tokens_look_alike {L : Libraries} (t1 t2 : string) (now : Z)
    (e1 e2 : JOSEError) :
  jwtVerify t1 now = inr e1 ->
  jwtVerify t2 now = inr e2 ->
  verifyToken t1 now = verifyToken t2 now.
Proof. unfold verifyToken. now intros -> ->. Qed.

(** C3 fails as stated: a malformed token, a token with a wrong signature
    and an expired token are rejected by the library for three different
    reasons, and [verifyToken] answers [null] to all three. *)
Lemma verifyToken_collapses_failures :
  @jwtVerify Reference.libraries Tokens.malformed Tokens.too_late =
    inr JWSInvalid /\
  @jwtVerify Reference.libraries Tokens.tampered Tokens.too_late =
    inr JWSSignatureVerificationFailed /\
  @jwtVerify Reference.libraries Tokens.issued Tokens.too_late =
    inr JWTExpired /\
  @verifyToken Reference.libraries Tokens.malformed Tokens.too_late = None /\
  @verifyToken Reference.libraries Tokens.tampered Tokens.too_late = None /\
  @verifyToken Reference.libraries Tokens.issued Tokens.too_late = None /\
  @getUserByToken Reference.libraries Reference.seeded Tokens.tampered
    Tokens.too_late = None /\
  ~ verifyToken_tells_failures_apart Reference.libraries.
Proof.
  repeat (split; [reflexivity|]).
  intro H.
  apply (H Tokens.malformed Tokens.tampered Tokens.too_late
           JWSInvalid JWSSignatureVerificationFailed);
    [reflexivity | reflexivity | discriminate |].
  now apply (@rejected_tokens_look_alike Reference.libraries _ _ _
               JWSInvalid JWSSignatureVerificationFailed).
Qed.

(* ================================================================= *)
(** ** The validity window *)

Lemma epoch_plus_seconds (ms n : Z) : epoch (ms + n * 1000) = epoch ms + n.
Proof. unfold epoch. apply Z.div_add. lia. Qed.

(** C4.  A token issued at clock reading [T] by a successful
    [authenticateUser] or [registerUser] (in one run, or writing late) on a
    reachable store carries the
    claims [iat = epoch T] and [exp = epoch T + 24 * 60 * 60]: a window of
    exactly 24 hours.  With a token library that honours the [exp] claim of
    this token, [getUserByToken] returns the user the token was issued to at
    [T] plus one second, and at [T] plus 24 hours plus one second
    [jwtVerify] throws [JWTExpired] and [getUserByToken] returns [null]. *)
Theorem token_valid_for_24_hours {L : Libraries}
    (st st' : Store) (email password name : string) (T : Z)
    (salt random36 : string) (u : User.t) (token : string) :
  reachable st ->
  (authenticateUser st email password T random36 =
     (st', AuthResult.ok u token) \/
   registerUser st email password name T salt random36 =
     (st', AuthResult.ok u token) \/
   registerUser_store st email password name T salt random36 =
     (st', AuthResult.ok u token)) ->
  jose_honours L token (claims_for u T) ->
  jose_sign (claims_for u T) = Some token /\
  JWTPayload.iat (claims_for u T) = Some (epoch T) /\
  JWTPayload.exp (claims_for u T) = Some (epoch T + 24 * 60 * 60) /\
  getUserByToken st' token (T + 1000) = Some u /\
  jwtVerify token (T + 24 * 60 * 60 * 1000 + 1000) = inr JWTExpired /\
  getUserByToken st' token (T + 24 * 60 * 60 * 1000 + 1000) = None.
Proof.
  intros Hreach Hissue Hlib.
  assert (Hin : jwtVerify token (T + 1000) = inl (claims_for u T)).
  { apply (Hlib (T + 1000) (epoch T + 24 * 60 * 60)); [reflexivity|].
    replace (T + 1000) with (T + 1 * 1000) by lia.
    rewrite epoch_plus_seconds. lia. }
  assert (Hout : jwtVerify token (T + 24 * 60 * 60 * 1000 + 1000)
                 = inr JWTExpired).
  { apply (Hlib (T + 24 * 60 * 60 * 1000 + 1000) (epoch T + 24 * 60 * 60));
      [reflexivity|].
    replace (T + 24 * 60 * 60 * 1000 + 1000) with (T + 86401 * 1000) by lia.
    rewrite epoch_plus_seconds. lia. }
  assert (Hstored : jose_sign (claims_for u T) = Some token /\
                    getUserById st' (User.id u) = Some u).
  { destruct Hissue as [E|[E|E]].
    - destruct (authenticateUser_success _ _ _ _ _ _ _ E eq_refl)
        as (foundUser & token' & Hfind & _ & Hsign & -> & [= -> ->]).
      split; [exact Hsign|].
      unfold getUserById. cbn [users User.id userWithoutPassword].
      now rewrite (find_by_email_get st email foundUser
                     (reachable_store_wf st Hreach) Hfind).
    - destruct (registerUser_success _ _ _ _ _ _ _ _ _ E eq_refl)
        as (_ & _ & _ & -> & token' & Hsign & [= -> ->]).
      split; [exact Hsign|].
      unfold getUserById. cbn [users User.id userWithoutPassword newUser].
      now rewrite JsMapFacts.get_set_same.
    - destruct (registerUser_store_success _ _ _ _ _ _ _ _ _ E eq_refl)
        as (-> & token' & Hsign & [= -> ->]).
      split; [exact Hsign|].
      unfold getUserById. cbn [users User.id userWithoutPassword newUser].
      now rewrite JsMapFacts.get_set_same. }
  destruct Hstored as [Hsign Hget].
  repeat split; auto.
  - unfold getUserByToken, verifyToken. rewrite Hin. exact Hget.
  - unfold getUserByToken, verifyToken. now rewrite Hout.
Qed.

(** The stand-in token library honours the expiry of the issued token. *)
Lemma reference_honours_issued (c : JWTPayload.t) :
  Reference.decode "2|user@demo.com|user|1700000000|1700086400" = Some c ->
  jose_honours Reference.libraries Tokens.issued c.
Proof.
  intros Hc now e He.
  assert (Hv : @jwtVerify Reference.libraries Tokens.issued now =
               match JWTPayload.exp c with
               | Some e => if e <=? epoch now then inr JWTExpired else inl c
               | None => inl c
               end).
  { cbn [jwtVerify Reference.libraries]. unfold Reference.verify.
    replace (Reference.split_on "~" Tokens.issued)
      with ["2|user@demo.com|user|1700000000|1700086400"; "117736"]
      by (vm_compute; reflexivity).
    replace (negb (String.eqb "117736"
                     (Reference.mac "2|user@demo.com|user|1700000000|1700086400")))
      with false by (vm_compute; reflexivity).
    now rewrite Hc. }
  rewrite Hv, He. split; intro H.
  - destruct (e <=? epoch now) eqn:E; [apply Z.leb_le in E; lia | reflexivity].
  - destruct (e <=? epoch now) eqn:E; [reflexivity | apply Z.leb_gt in E; lia].
Qed.

Lemma token_valid_for_24_hours_witness :
  @reachable Reference.libraries Reference.seeded /\
  Reference.logged_in =
    (fst Reference.logged_in,
     AuthResult.ok (userWithoutPassword (demoUser 1200 1200 "$2b$12$user123!"))
       Tokens.issued) /\
  @getUserByToken Reference.libraries (fst Reference.logged_in) Tokens.issued
    (1700000000000 + 1000) =
    Some (userWithoutPassword (demoUser 1200 1200 "$2b$12$user123!")) /\
  @getUserByToken Reference.libraries (fst Reference.logged_in) Tokens.issued
    (1700000000000 + 24 * 60 * 60 * 1000 + 1000) = None.
Proof.
  pose proof reachable_seeded as Hreach.
  split; [exact Hreach|]. split; [reflexivity|].
  destruct (@token_valid_for_24_hours Reference.libraries
              Reference.seeded (fst Reference.logged_in)
              "user@demo.com" "user123!" "" 1700000000000 "" "0.4fzyo82mvyr"
              (userWithoutPassword (demoUser 1200 1200 "$2b$12$user123!"))
              Tokens.issued Hreach (or_introl eq_refl)
              (reference_honours_issued _ eq_refl))
    as (_ & _ & _ & Hin & _ & Hout).
  split; [exact Hin | exact Hout].
Defined.

(* ================================================================= *)
(** ** Facts about the string methods *)

Module JsStringFacts.
Import JsString.

Lemma split_not_nil (sep : ascii) (s : string) : split sep s <> [].
Proof.
  destruct s as [|c s]; simpl; [discriminate|].
  destruct (Ascii.eqb c sep); [discriminate|].
  destruct (split sep s); discriminate.
Qed.

(** A string without the separator is one piece. *)
Lemma split_none (sep : ascii) (s : string) :
  mem sep s = false -> split sep s = [s].
Proof.
  induction s as [|c s IH]; simpl; [reflexivity|].
  intro H. apply orb_false_iff in H as [Hc Hs].
  rewrite Hc, (IH Hs). reflexivity.
Qed.

(** Splitting distributes over a separator. *)
Lemma split_app (sep : ascii) (a b : string) :
  split sep (a ++ String sep b) = (split sep a ++ split sep b)%list.
Proof.
  induction a as [|c a IH]; simpl.
  - now rewrite Ascii.eqb_refl.
  - destruct (Ascii.eqb c sep); [now rewrite IH|].
    rewrite IH. destruct (split sep a) eqn:E; [|reflexivity].
    now destruct (split_not_nil sep a).
Qed.

Lemma mem_app (c : ascii) (a b : string) :
  mem c (a ++ b) = mem c a || mem c b.
Proof.
  induction a as [|x a IH]; simpl; [reflexivity|].
  now rewrite IH, orb_assoc.
Qed.

Lemma any_app (p : ascii -> bool) (a b : string) :
  any p (a ++ b) = any p a || any p b.
Proof.
  induction a as [|x a IH]; simpl; [reflexivity|].
  now rewrite IH, orb_assoc.
Qed.

(** Leading white space goes. *)
Lemma trimStart_whitespace (ws s : string) :
  any (fun c => negb (Regex.whitespace c)) ws = false ->
  trimStart (ws ++ s) = trimStart s.
Proof.
  induction ws as [|c ws IH]; simpl; [reflexivity|].
  intro H. apply orb_false_iff in H as [Hc Hws].
  apply negb_false_iff in Hc. rewrite Hc. auto.
Qed.

(** A string without white space is not trimmed. *)
Lemma trimEnd_clean (s : string) :
  any Regex.whitespace s = false -> trimEnd s = s.
Proof.
  induction s as [|c s IH]; simpl; [reflexivity|].
  intro H. apply orb_false_iff in H as [Hc Hs].
  rewrite (IH Hs), Hc. now destruct s.
Qed.

Lemma drop_app (p s : string) : drop (String.length p) (p ++ s) = s.
Proof. induction p as [|c p IH]; simpl; [now destruct s | exact IH]. Qed.

Lemma startsWith_app (p s : string) : startsWith p (p ++ s) = true.
Proof.
  unfold startsWith. induction p as [|c p IH]; simpl; [now destruct s|].
  destruct (ascii_dec c c); [exact IH | congruence].
Qed.

Lemma replace_absent (c : ascii) (by_ s : string) :
  mem c s = false -> replace c by_ s = s.
Proof.
  induction s as [|a s IH]; simpl; [reflexivity|].
  intro H. apply orb_false_iff in H as [Ha Hs].
  now rewrite Ha, (IH Hs).
Qed.

(** The first occurrence is the one replaced. *)
Lemma replace_first (c : ascii) (by_ a b : string) :
  mem c a = false -> replace c by_ (a ++ String c b) = a ++ by_ ++ b.
Proof.
  induction a as [|x a IH]; simpl.
  - now rewrite Ascii.eqb_refl.
  - intro H. apply orb_false_iff in H as [Hx Ha].
    now rewrite Hx, (IH Ha).
Qed.

End JsStringFacts.

(* ================================================================= *)
(** ** Extracting the token from a request *)

Section Extraction.

Lemma append_nonempty (a b : string) : b <> "" -> a ++ b <> "".
Proof. intros Hb E. apply append_eq_nil in E as [_ E]. now apply Hb. Qed.

(** The cookies before the last one only prepare an accumulator. *)
Lemma parse_cookies_last (lead c : string) :
  cookie_boundary lead ->
  JsString.mem ";" c = false ->
  exists acc, parse_cookies (lead ++ c) = cookie_step acc c.
Proof.
  unfold parse_cookies. intros [->|(before & ->)] Hc.
  - exists JsMap.empty. simpl. now rewrite (JsStringFacts.split_none _ _ Hc).
  - exists (fold_left cookie_step (JsString.split ";" before) JsMap.empty).
    rewrite append_assoc. simpl.
    rewrite JsStringFacts.split_app, fold_left_app.
    now rewrite (JsStringFacts.split_none _ _ Hc).
Qed.

Lemma cookie_value_ok_parts (v : string) :
  cookie_value_ok v = true ->
  v <> "" /\ JsString.any Regex.whitespace v = false /\
  JsString.mem ";" v = false /\ JsString.mem "=" v = false.
Proof.
  unfold cookie_value_ok. intro H.
  apply andb_true_iff in H as [Hne Hany].
  apply negb_true_iff in Hne, Hany. apply String.eqb_neq in Hne.
  split; [exact Hne|]. clear Hne.
  induction v as [|c v IH]; simpl in *; [auto|].
  apply orb_false_iff in Hany as [Hc Hv].
  apply orb_false_iff in Hc as [Hc He].
  apply orb_false_iff in Hc as [Hw Hs].
  destruct (IH Hv) as (H1 & H2 & H3).
  now rewrite Hw, Hs, He, H1, H2, H3.
Qed.

Lemma blank_no_semicolon (ws : string) :
  blank ws = true -> JsString.mem ";" ws = false.
Proof.
  unfold blank. intro H. apply negb_true_iff in H.
  induction ws as [|c ws IH]; simpl in *; [reflexivity|].
  apply orb_false_iff in H as [Hc Hws]. rewrite (IH Hws).
  apply negb_false_iff in Hc.
  destruct (Ascii.eqb c ";") eqn:E; [|reflexivity].
  apply Ascii.eqb_eq in E. subst c. discriminate Hc.
Qed.

(** What [cookie.trim().split('=')] gives for a [token] cookie. *)
Lemma token_cookie_parts (ws v rest : string) :
  blank ws = true ->
  JsString.any Regex.whitespace (v ++ rest) = false ->
  JsString.split "=" (JsString.trim (ws ++ "token" ++ String "=" (v ++ rest)))
  = ("token" :: JsString.split "=" (v ++ rest))%list.
Proof.
  intros Hws Hclean. unfold JsString.trim, blank in *.
  apply negb_true_iff in Hws.
  rewrite (JsStringFacts.trimStart_whitespace _ _ Hws).
  cbn [append JsString.trimStart Regex.whitespace Regex.one_of existsb
         Ascii.eqb Bool.eqb orb].
  rewrite JsStringFacts.trimEnd_clean by exact Hclean.
  change ("token" ++ String "=" (v ++ rest))
    with (String "t" (String "o" (String "k" (String "e" (String "n"
            (String "=" (v ++ rest))))))).
  cbn [JsString.split Ascii.eqb Bool.eqb].
  destruct (JsString.split "=" (v ++ rest)) eqn:E; [|reflexivity].
  now destruct (JsStringFacts.split_not_nil "=" (v ++ rest)).
Qed.

Lemma extract_from_cookie (request : Request.t) (header : string) :
  no_bearer request = true ->
  Request.cookie request = Some header ->
  header <> "" ->
  extractTokenFromRequest request = token_or_null (parse_cookies header).
Proof.
  unfold extractTokenFromRequest, no_bearer. intros Hb -> Hne.
  apply String.eqb_neq in Hne. rewrite Hne.
  destruct (Request.authorization request) as [h|]; [|reflexivity].
  apply negb_true_iff in Hb. now rewrite Hb.
Qed.

(** X1.  An [Authorization] header that starts with ['Bearer '] decides
    alone: the token is the rest of the header, whatever the [Cookie]
    header says, and it is the empty string when nothing follows the
    prefix.  Without such a header and without a [Cookie] header, or with
    an empty one, there is no token. *)
Theorem extractTokenFromRequest_header_first :
  (forall token cookie,
      extractTokenFromRequest
        {| Request.authorization := Some ("Bearer " ++ token);
           Request.cookie := cookie |} = Some token) /\
  (forall request,
      no_bearer request = true ->
      Request.cookie request = None \/ Request.cookie request = Some "" ->
      extractTokenFromRequest request = None).
Proof.
  split.
  - intros token cookie. unfold extractTokenFromRequest.
    cbn [Request.authorization].
    rewrite (JsStringFacts.startsWith_app "Bearer " token).
    reflexivity.
  - intros request Hb Hc. unfold extractTokenFromRequest, no_bearer in *.
    destruct (Request.authorization request) as [h|].
    + apply negb_true_iff in Hb. rewrite Hb. now destruct Hc as [-> | ->].
    + now destruct Hc as [-> | ->].
Qed.

Lemma extractTokenFromRequest_header_first_witness :
  extractTokenFromRequest
    {| Request.authorization := Some ("Bearer " ++ "abc.def.ghi");
       Request.cookie := Some "token=other" |} = Some "abc.def.ghi" /\
  extractTokenFromRequest
    {| Request.authorization := Some "Basic dXNlcg"; Request.cookie := None |}
    = None.
Proof.
  destruct extractTokenFromRequest_header_first as [Hbearer Hnone].
  split; [apply Hbearer|].
  apply Hnone; [reflexivity | now left].
Defined.

(** X2.  When the [Authorization] header does not decide, a cookie
    [token=v] that is the last one of the [Cookie] header is extracted as
    [v], whatever cookies precede it (an earlier [token] cookie included)
    and whatever white space leads it, provided [v] is not empty and has
    no white space, [;] or [=]. *)
Theorem extractTokenFromRequest_last_cookie
    (request : Request.t) (lead ws v : string) :
  no_bearer request = true ->
  cookie_boundary lead ->
  blank ws = true ->
  cookie_value_ok v = true ->
  Request.cookie request = Some (lead ++ ws ++ "token=" ++ v) ->
  extractTokenFromRequest request = Some v.
Proof.
  intros Hb Hlead Hws Hv Hc.
  destruct (cookie_value_ok_parts v Hv) as (Hne & Hclean & Hsemi & Heq).
  rewrite (extract_from_cookie request _ Hb Hc).
  2:{ apply append_nonempty, append_nonempty. discriminate. }
  destruct (parse_cookies_last lead (ws ++ "token=" ++ v) Hlead) as [acc ->].
  { rewrite JsStringFacts.mem_app, (blank_no_semicolon ws Hws). simpl.
    exact Hsemi. }
  unfold cookie_step.
  replace (ws ++ "token=" ++ v) with (ws ++ "token" ++ String "=" (v ++ ""))
    by (now rewrite append_nil_r).
  rewrite token_cookie_parts by (now rewrite ?append_nil_r).
  rewrite append_nil_r, (JsStringFacts.split_none _ _ Heq).
  cbn [nth_error]. unfold object_set. cbn [String.eqb Ascii.eqb Bool.eqb].
  unfold token_or_null. rewrite JsMapFacts.get_set_same.
  apply String.eqb_neq in Hne. now rewrite Hne.
Qed.

Lemma extractTokenFromRequest_last_cookie_witness :
  extractTokenFromRequest
    {| Request.authorization := None;
       Request.cookie :=
         Some (("theme=dark; token=old;" ++ " ") ++ "token=" ++ "abc.def.ghi") |}
  = Some "abc.def.ghi".
Proof.
  apply (extractTokenFromRequest_last_cookie _ "theme=dark; token=old;" " "
           "abc.def.ghi");
    [reflexivity | right; now exists "theme=dark; token=old"
    | reflexivity | reflexivity | ].
  cbn [Request.cookie]. now rewrite <- append_assoc.
Defined.

(** X3.  Two ways the cookie parsing loses a token.  The value of the
    [token] cookie is cut at its first [=]: from [token=a=b] only [a] comes
    back.  And a last cookie named [token] without a value, or with an
    empty one, hides every earlier [token] cookie: the answer is [null]. *)
Theorem extractTokenFromRequest_cookie_edges
    (request : Request.t) (lead ws : string) :
  no_bearer request = true ->
  cookie_boundary lead ->
  blank ws = true ->
  (forall a b,
      cookie_value_ok a = true ->
      JsString.any Regex.whitespace b = false ->
      JsString.mem ";" b = false ->
      Request.cookie request = Some (lead ++ ws ++ "token=" ++ a ++ "=" ++ b) ->
      extractTokenFromRequest request = Some a) /\
  (Request.cookie request = Some (lead ++ ws ++ "token") \/
   Request.cookie request = Some (lead ++ ws ++ "token=") ->
   extractTokenFromRequest request = None).
Proof.
  intros Hb Hlead Hws. split.
  - intros a b Ha Hbclean Hbsemi Hc.
    destruct (cookie_value_ok_parts a Ha) as (Hne & Hclean & Hsemi & Heq).
    rewrite (extract_from_cookie request _ Hb Hc).
    2:{ apply append_nonempty, append_nonempty. discriminate. }
    destruct (parse_cookies_last lead (ws ++ "token=" ++ a ++ "=" ++ b) Hlead)
      as [acc ->].
    { rewrite JsStringFacts.mem_app, (blank_no_semicolon ws Hws). simpl.
      rewrite JsStringFacts.mem_app, Hsemi. simpl. exact Hbsemi. }
    unfold cookie_step.
    change (ws ++ "token=" ++ a ++ "=" ++ b)
      with (ws ++ "token" ++ String "=" (a ++ String "=" b)).
    rewrite token_cookie_parts.
    2: exact Hws.
    2:{ rewrite JsStringFacts.any_app, Hclean. simpl. exact Hbclean. }
    rewrite JsStringFacts.split_app, (JsStringFacts.split_none _ _ Heq).
    cbn [app nth_error]. unfold object_set. cbn [String.eqb Ascii.eqb Bool.eqb].
    unfold token_or_null. rewrite JsMapFacts.get_set_same.
    apply String.eqb_neq in Hne. now rewrite Hne.
  - intros [Hc|Hc].
    + rewrite (extract_from_cookie request _ Hb Hc).
      2:{ apply append_nonempty, append_nonempty. discriminate. }
      destruct (parse_cookies_last lead (ws ++ "token") Hlead) as [acc ->].
      { now rewrite JsStringFacts.mem_app, (blank_no_semicolon ws Hws). }
      unfold cookie_step, JsString.trim. unfold blank in Hws.
      apply negb_true_iff in Hws.
      rewrite (JsStringFacts.trimStart_whitespace _ _ Hws).
      cbn. unfold token_or_null. now rewrite JsMapFacts.get_set_same.
    + rewrite (extract_from_cookie request _ Hb Hc).
      2:{ apply append_nonempty, append_nonempty. discriminate. }
      destruct (parse_cookies_last lead (ws ++ "token=") Hlead) as [acc ->].
      { now rewrite JsStringFacts.mem_app, (blank_no_semicolon ws Hws). }
      unfold cookie_step, JsString.trim. unfold blank in Hws.
      apply negb_true_iff in Hws.
      rewrite (JsStringFacts.trimStart_whitespace _ _ Hws).
      cbn. unfold token_or_null. now rewrite JsMapFacts.get_set_same.
Qed.

Lemma extractTokenFromRequest_cookie_edges_witness :
  extractTokenFromRequest
    {| Request.authorization := None;
       Request.cookie := Some ("" ++ "" ++ "token=" ++ "YWJj" ++ "=" ++ "=") |}
  = Some "YWJj" /\
  extractTokenFromRequest
    {| Request.authorization := None;
       Request.cookie := Some ("token=abc;" ++ " " ++ "token") |} = None.
Proof.
  split.
  - apply (proj1 (extractTokenFromRequest_cookie_edges
                    {| Request.authorization := None;
                       Request.cookie := Some "token=YWJj==" |}
                    "" "" eq_refl (or_introl eq_refl) eq_refl) "YWJj" "=");
      reflexivity.
  - apply (proj2 (extractTokenFromRequest_cookie_edges
                    {| Request.authorization := None;
                       Request.cookie := Some "token=abc; token" |}
                    "token=abc;" " " eq_refl
                    (or_intror (ex_intro _ "token=abc" eq_refl)) eq_refl)).
    now left.
Defined.

End Extraction.

(* ================================================================= *)
(** ** The shape of an accepted e-mail address *)

Section EmailShape.

Import Regex.

Lemma lang_star_class (p : ascii -> bool) (s : string) :
  lang (Star (Class p)) s <-> JsString.any (fun c => negb (p c)) s = false.
Proof.
  split.
  - intro H. remember (Star (Class p)) as r eqn:Er.
    induction H as [ | | | | | r0 | r0 u v Hu _ Hv IHv ]; try discriminate.
    + reflexivity.
    + injection Er as ->.
      inversion Hu as [ | ? c Hc | | | | | ]; subst.
      simpl. rewrite Hc. simpl. now apply IHv.
  - induction s as [|c s IH]; simpl; intro H.
    + constructor.
    + apply orb_false_iff in H as [Hc Hs]. apply negb_false_iff in Hc.
      change (String c s) with (String c "" ++ s).
      constructor; [now constructor | auto].
Qed.

Lemma lang_plus_class (p : ascii -> bool) (s : string) :
  lang (Plus (Class p)) s <->
  s <> "" /\ JsString.any (fun c => negb (p c)) s = false.
Proof.
  unfold Plus. split.
  - intro H. inversion H as [ | | ? ? u v Hu Hv | | | | ]; subst.
    inversion Hu as [ | ? c Hc | | | | | ]; subst.
    apply lang_star_class in Hv.
    split; [discriminate|]. simpl. now rewrite Hc, Hv.
  - intros [Hne H]. destruct s as [|c s]; [now destruct Hne|].
    simpl in H. apply orb_false_iff in H as [Hc Hs].
    apply negb_false_iff in Hc.
    change (String c s) with (String c "" ++ s).
    constructor; [now constructor | now apply lang_star_class].
Qed.

Lemma lang_char (a : ascii) (s : string) :
  lang (Class (Ascii.eqb a)) s <-> s = String a "".
Proof.
  split.
  - intro H. inversion H as [ | ? c Hc | | | | | ]; subst.
    apply Ascii.eqb_eq in Hc. now subst.
  - intros ->. constructor. apply Ascii.eqb_refl.
Qed.

Lemma email_part_lang (s : string) :
  lang (Plus (Class not_space_at)) s <-> email_part s.
Proof.
  rewrite lang_plus_class. unfold email_part, not_space_at.
  assert (E : forall w,
             JsString.any
               (fun c => negb (negb (whitespace c || Ascii.eqb c "@"))) w =
             JsString.any (fun c => whitespace c || Ascii.eqb c "@") w).
  { induction w as [|c w IH]; simpl; [reflexivity|].
    now rewrite negb_involutive, IH. }
  now rewrite E.
Qed.

(** The parts of an accepted address. *)
Lemma validateEmail_parts (email : string) :
  validateEmail email = true ->
  exists local domain tail,
    email = local ++ "@" ++ domain ++ "." ++ tail /\
    email_part local /\ email_part domain /\ email_part tail.
Proof.
  unfold validateEmail. rewrite RegexFacts.matches_lang. unfold emailRegex.
  intro H.
  inversion H as [ | | ? ? l r1 Hl H1 | | | | ]; subst.
  inversion H1 as [ | | ? ? a r2 Ha H2 | | | | ]; subst.
  inversion H2 as [ | | ? ? d r3 Hd H3 | | | | ]; subst.
  inversion H3 as [ | | ? ? o t Ho Ht | | | | ]; subst.
  apply lang_char in Ha, Ho. subst a o.
  exists l, d, t.
  split; [reflexivity|].
  now rewrite <- !email_part_lang.
Qed.

(** X4.  [validateEmail] accepts exactly the strings of the form
    [local@domain.tail] in which the three parts are not empty and contain
    neither white space nor [@]; a dot inside a part is allowed. *)
Theorem validateEmail_shape (email : string) :
  validateEmail email = true <->
  exists local domain tail,
    email = local ++ "@" ++ domain ++ "." ++ tail /\
    email_part local /\ email_part domain /\ email_part tail.
Proof.
  split; [apply validateEmail_parts|].
  unfold validateEmail. rewrite RegexFacts.matches_lang. unfold emailRegex.
  intros (l & d & t & -> & Hl & Hd & Ht).
  apply email_part_lang in Hl, Hd, Ht.
  constructor; [exact Hl|].
  change ("@" ++ d ++ "." ++ t) with (String "@" "" ++ (d ++ "." ++ t)).
  constructor; [now apply lang_char|].
  constructor; [exact Hd|].
  change ("." ++ t) with (String "." "" ++ t).
  constructor; [now apply lang_char | exact Ht].
Qed.

(** An accepted address has no white space and exactly one [@]. *)
Lemma validateEmail_one_at (email : string) :
  validateEmail email = true ->
  JsString.any whitespace email = false /\
  exists local rest,
    email = local ++ "@" ++ rest /\
    JsString.mem "@" local = false /\ JsString.mem "@" rest = false.
Proof.
  intro H. apply validateEmail_parts in H
    as (l & d & t & -> & [_ Hl] & [_ Hd] & [_ Ht]).
  assert (Hsplit : forall w,
             JsString.any (fun c => whitespace c || Ascii.eqb c "@") w = false ->
             JsString.any whitespace w = false /\ JsString.mem "@" w = false).
  { induction w as [|c w IH]; simpl; [auto|].
    intro E. apply orb_false_iff in E as [Ec Es].
    apply orb_false_iff in Ec as [Ew Ea].
    destruct (IH Es) as [-> ->]. now rewrite Ew, Ea. }
  destruct (Hsplit l Hl) as [Wl Al], (Hsplit d Hd) as [Wd Ad],
    (Hsplit t Ht) as [Wt At].
  split.
  - rewrite !JsStringFacts.any_app, Wl, Wd, Wt. reflexivity.
  - exists l, (d ++ "." ++ t). split; [reflexivity|]. split; [exact Al|].
    rewrite !JsStringFacts.mem_app, Ad, At. reflexivity.
Qed.

End EmailShape.

(* ================================================================= *)
(** ** Updating a user *)

Lemma keys_set_present {V} (k : string) (v : V) (m : JsMap.t V) :
  JsMap.get k m <> None -> JsMap.keys (JsMap.set k v m) = JsMap.keys m.
Proof.
  intro H. rewrite JsMapFacts.keys_set.
  destruct (JsMap.has k m) eqn:E; [reflexivity|].
  now apply JsMapFacts.has_get in E.
Qed.

(** X5.  [updateUser] on an id that is not in the registry answers
    ['User not found'] and changes nothing.  On a stored id it always
    succeeds: the record stays under the same id and keeps that id even if
    the update names another one, and [updatedAt] is the clock reading
    whatever the update says.  Every other key the update carries is
    copied over the record, a [password] key too, which replaces the stored
    hash by the value given, and so are keys outside [User]; a key it does
    not carry keeps its value.  No key of the registry is added or removed,
    every other record and every session is untouched, and [getUserById]
    afterwards returns the user the call returned. *)
Theorem updateUser_keeps_id_spreads_updates
    (st : Store) (userId : string) (updates : PartialUser.t) (now : Z) :
  (JsMap.get userId (users st) = None ->
   updateUser st userId updates now =
   (st, {| UpdateResult.success := false; UpdateResult.user := None;
           UpdateResult.error := Some "User not found" |})) /\
  (forall stored,
      JsMap.get userId (users st) = Some stored ->
      exists updated,
        JsMap.get userId (users (fst (updateUser st userId updates now)))
          = Some updated /\
        snd (updateUser st userId updates now) =
          {| UpdateResult.success := true;
             UpdateResult.user := Some (userWithoutPassword updated);
             UpdateResult.error := None |} /\
        StoredUser.id updated = userId /\
        StoredUser.updatedAt updated = now /\
        StoredUser.password updated =
          overridden (PartialUser.password updates)
            (StoredUser.password stored) /\
        StoredUser.email updated =
          overridden (PartialUser.email updates) (StoredUser.email stored) /\
        StoredUser.name updated =
          overridden (PartialUser.name updates) (StoredUser.name stored) /\
        StoredUser.role updated =
          overridden (PartialUser.role updates) (StoredUser.role stored) /\
        StoredUser.createdAt updated =
          overridden (PartialUser.createdAt updates)
            (StoredUser.createdAt stored) /\
        StoredUser.profile updated =
          match PartialUser.profile updates with
          | Some p => Some p
          | None => StoredUser.profile stored
          end /\
        StoredUser.extra updated =
          spread (StoredUser.extra stored) (PartialUser.extra updates) /\
        JsMap.keys (users (fst (updateUser st userId updates now)))
          = JsMap.keys (users st) /\
        (forall k, k <> userId ->
           JsMap.get k (users (fst (updateUser st userId updates now)))
           = JsMap.get k (users st)) /\
        sessions (fst (updateUser st userId updates now)) = sessions st /\
        getUserById (fst (updateUser st userId updates now)) userId
          = Some (userWithoutPassword updated)).
Proof.
  unfold updateUser. split.
  - intros ->. reflexivity.
  - intros stored E. rewrite E. cbn [fst snd users sessions].
    exists (merge_update stored updates userId now).
    split; [apply JsMapFacts.get_set_same|].
    do 10 (split; [reflexivity|]).
    split; [apply keys_set_present; congruence|].
    split; [|split; [reflexivity|]].
    + intros k Hk. now apply JsMapFacts.get_set_other.
    + unfold getUserById. cbn [users].
      now rewrite JsMapFacts.get_set_same.
Qed.

Lemma updateUser_keeps_id_spreads_updates_witness :
  JsMap.get "2" (users Reference.seeded)
    = Some (demoUser 1200 1200 "$2b$12$user123!") /\
  (exists updated,
    JsMap.get "2"
      (users (fst (updateUser Reference.seeded "2" rename_as_admin 2000)))
      = Some updated /\
    StoredUser.id updated = "2" /\
    StoredUser.updatedAt updated = 2000 /\
    StoredUser.password updated = "$2b$12$user123!" /\
    StoredUser.name updated = "Renamed") /\
  (exists updated,
    JsMap.get "2"
      (users (fst (updateUser Reference.seeded "2" password_update 2000)))
      = Some updated /\
    StoredUser.password updated = "plaintext" /\
    StoredUser.name updated = "Demo User").
Proof.
  split; [reflexivity|]. split.
  - destruct (proj2 (updateUser_keeps_id_spreads_updates Reference.seeded "2"
                       rename_as_admin 2000)
                (demoUser 1200 1200 "$2b$12$user123!") eq_refl)
      as (updated & Hget & _ & Hid & Hat & Hpw & _ & Hname & _).
    exists updated. auto.
  - destruct (proj2 (updateUser_keeps_id_spreads_updates Reference.seeded "2"
                       password_update 2000)
                (demoUser 1200 1200 "$2b$12$user123!") eq_refl)
      as (updated & Hget & _ & _ & _ & Hpw & _ & Hname & _).
    exists updated. auto.
Defined.

(* ================================================================= *)
(** ** Registration, and logging in afterwards *)

Lemma not_violated_meets (r : Policy.Rule) (password : string) :
  violated r password = false -> Policy.meets r password.
Proof.
  destruct r; simpl; intro E.
  - apply Z.ltb_ge in E. lia.
  - apply negb_false_iff, RegexFacts.test_contains in E.
    destruct E as (c & Hc & Hr). exists c. split; auto.
    now apply in_range_between.
  - apply negb_false_iff, RegexFacts.test_contains in E.
    destruct E as (c & Hc & Hr). exists c. split; auto.
    now apply in_range_between.
  - apply negb_false_iff, RegexFacts.test_contains in E.
    destruct E as (c & Hc & Hr). exists c. split; auto.
    now apply in_range_between.
  - apply negb_false_iff, RegexFacts.test_contains in E.
    destruct E as (c & Hc & Hr). exists c. split; auto.
    now apply (one_of_In Policy.special_characters).
Qed.

Lemma valid_meets_all (password : string) :
  PasswordValidation.valid (validatePassword password) = true ->
  forall r, Policy.meets r password.
Proof.
  intros Hv r. apply validatePassword_valid in Hv.
  apply not_violated_meets.
  destruct (violated r password) eqn:E; [|reflexivity].
  apply errors_report in E. rewrite Hv in E. destruct E.
Qed.

Lemma unmet_rule_invalid (password : string) (r : Policy.Rule) :
  ~ Policy.meets r password ->
  PasswordValidation.valid (validatePassword password) = false.
Proof.
  intro H. destruct (PasswordValidation.valid _) eqn:E; [|reflexivity].
  destruct (H (valid_meets_all password E r)).
Qed.

(** X6.  What [registerUser] refuses, and in which order.  A malformed
    e-mail address is answered with ['Invalid email format'] whatever the
    password; a well-formed address with a password that breaks a rule is
    answered with the messages of all broken rules joined by [', ']; both
    leave the store as it was.  The store changes only when the address is
    well-formed, the password meets all five rules and no record has the
    address. *)
Theorem registerUser_refusals {L : Libraries}
    (st : Store) (email password name : string) (now : Z)
    (salt random36 : string) :
  (validateEmail email = false ->
   registerUser st email password name now salt random36 =
   (st, AuthResult.failure "Invalid email format")) /\
  (validateEmail email = true ->
   (exists r, ~ Policy.meets r password) ->
   registerUser st email password name now salt random36 =
   (st, AuthResult.failure
          (String.concat ", "
             (map Policy.message
                (filter (fun r => violated r password) Policy.all_rules))))) /\
  (fst (registerUser st email password name now salt random36) <> st ->
   validateEmail email = true /\
   (forall r, Policy.meets r password) /\
   find_by_email email (users st) = None).
Proof.
  rewrite registerUser_body. split; [|split].
  - intros ->. reflexivity.
  - intros -> (r & Hr). cbn [negb].
    rewrite (unmet_rule_invalid password r Hr). cbn [negb].
    now rewrite validatePassword_errors.
  - destruct (validateEmail email); cbn [negb];
      [|intro H; now destruct H].
    destruct (PasswordValidation.valid (validatePassword password)) eqn:Ev;
      cbn [negb]; [|intro H; now destruct H].
    destruct (find_by_email email (users st)); [intro H; now destruct H|].
    intros _. split; [reflexivity|]. split; [|reflexivity].
    now apply valid_meets_all.
Qed.

Lemma registerUser_refusals_witness :
  @registerUser Reference.libraries Reference.seeded
    "no-at-sign" "short1" "N" 1700000000000 "salt" "0.4fzyo82mvyr" =
  (Reference.seeded, AuthResult.failure "Invalid email format") /\
  @registerUser Reference.libraries Reference.seeded
    "new@x.com" "12345678" "N" 1700000000000 "salt" "0.4fzyo82mvyr" =
  (Reference.seeded,
   AuthResult.failure
     (String.concat ", "
        (map Policy.message
           (filter (fun r => violated r "12345678") Policy.all_rules)))) /\
  fst Reference.registered <> Reference.seeded /\
  validateEmail "new@x.com" = true /\
  (forall r, Policy.meets r "Str0ng!Pass").
Proof.
  destruct (@registerUser_refusals Reference.libraries Reference.seeded
              "no-at-sign" "short1" "N" 1700000000000 "salt" "0.4fzyo82mvyr")
    as (Hformat & _).
  destruct (@registerUser_refusals Reference.libraries Reference.seeded
              "new@x.com" "12345678" "N" 1700000000000 "salt" "0.4fzyo82mvyr")
    as (_ & Hweak & _).
  destruct (@registerUser_refusals Reference.libraries Reference.seeded
              "new@x.com" "Str0ng!Pass" "New" 1700000000000 "salt"
              "0.4fzyo82mvyr")
    as (_ & _ & Hchanged).
  assert (Hdiff : fst Reference.registered <> Reference.seeded)
    by (intro E; apply (f_equal (fun s => List.length (users s))) in E;
        discriminate E).
  split; [apply Hformat; reflexivity|].
  split.
  - apply Hweak; [reflexivity|].
    exists Policy.HasLowercase.
    apply (proj1 (violated_meets Policy.HasLowercase "12345678")).
    reflexivity.
  - split; [exact Hdiff|]. destruct (Hchanged Hdiff) as (Hv & Hall & _).
    split; [exact Hv | exact Hall].
Defined.

(** X7.  A user registered without a clash can log in.  Take a successful
    registration that ran through at once ([registerUser]), or one that
    wrote late on a store where no record had its address.  With a hashing
    library that meets its contract, the returned user is the one
    [getUserById] finds under the returned id, and a login with the same
    address and password on the resulting store is never answered with
    ['Invalid credentials']: it returns that same user with the token the
    signer produces, and ['Authentication failed'] when the signer throws.
    A login with a password the library does not verify against the stored
    hash is answered with ['Invalid credentials']. *)
Theorem registered_user_can_log_in {L : Libraries}
    (st st' : Store) (email password name : string) (now : Z)
    (salt random36 : string) (r : AuthResult.t)
    (now' : Z) (random36' : string) :
  bcrypt_contract L ->
  registerUser st email password name now salt random36 = (st', r) \/
  registerUser_store st email password name now salt random36 = (st', r) /\
  find_by_email email (users st) = None ->
  AuthResult.success r = true ->
  exists u,
    AuthResult.user r = Some u /\
    getUserById st' (User.id u) = Some u /\
    snd (authenticateUser st' email password now' random36') =
      match jose_sign (claims_for u now') with
      | Some token' => AuthResult.ok u token'
      | None => AuthResult.failure "Authentication failed"
      end /\
    (forall wrong,
        verifyPassword wrong (hashPassword password salt) = false ->
        authenticateUser st' email wrong now' random36' =
        (st', AuthResult.failure "Invalid credentials")).
Proof.
  intros Hlib E Hs.
  assert (Hrun :
            registerUser_store st email password name now salt random36 =
            (st', r) /\
            find_by_email email (users st) = None).
  { destruct E as [E|E]; [|exact E].
    pose proof (registerUser_success _ _ _ _ _ _ _ _ _ E Hs)
      as (Hv & Hp & Hnone & _).
    rewrite registerUser_body, Hv, Hp, Hnone in E. auto. }
  destruct Hrun as [Hstore Hnone].
  destruct (registerUser_store_success _ _ _ _ _ _ _ _ _ Hstore Hs)
    as (-> & token & _ & ->).
  set (userId := new_user_id now random36).
  set (stored := newUser userId email name (hashPassword password salt) now).
  assert (Hfind : find_by_email email (JsMap.set userId stored (users st))
                  = Some stored).
  { apply JsMapFacts.find_values_set; [exact Hnone|].
    simpl. apply String.eqb_refl. }
  exists (userWithoutPassword stored).
  split; [reflexivity|]. split.
  - unfold getUserById. cbn [users User.id userWithoutPassword stored newUser].
    fold stored. now rewrite JsMapFacts.get_set_same.
  - split.
    + unfold authenticateUser. cbn [users]. rewrite Hfind.
      cbn [StoredUser.password stored newUser].
      destruct (Hlib password salt) as [Hverify _].
      unfold verifyPassword, hashPassword. rewrite Hverify. cbn [negb].
      unfold signToken, claims_for.
      cbn [StoredUser.id StoredUser.email StoredUser.role stored newUser
             User.id User.email User.role userWithoutPassword].
      destruct (jose_sign _); reflexivity.
    + intros wrong Hwrong. unfold authenticateUser. cbn [users].
      rewrite Hfind. cbn [StoredUser.password stored newUser].
      now rewrite Hwrong.
Qed.

Lemma registered_user_can_log_in_witness :
  bcrypt_contract Reference.libraries /\
  AuthResult.success (snd Reference.registered) = true /\
  (exists u token',
    AuthResult.user (snd Reference.registered) = Some u /\
    @getUserById (fst Reference.registered) (User.id u) = Some u /\
    snd (@authenticateUser Reference.libraries (fst Reference.registered)
           "new@x.com" "Str0ng!Pass" 1700000005000 "0.zzz") =
      AuthResult.ok u token' /\
    @authenticateUser Reference.libraries (fst Reference.registered)
      "new@x.com" "Str0ng!Pas" 1700000005000 "0.zzz" =
      (fst Reference.registered, AuthResult.failure "Invalid credentials")) /\
  AuthResult.success (snd Overlap.first_write) = true /\
  find_by_email "dup@x.com" (users Reference.seeded) = None /\
  (exists u token',
    AuthResult.user (snd Overlap.first_write) = Some u /\
    snd (@authenticateUser Reference.libraries (fst Overlap.first_write)
           "dup@x.com" "Str0ng!Pass" 1700000005000 "0.zzz") =
      AuthResult.ok u token').
Proof.
  split; [exact reference_bcrypt_contract|]. split; [reflexivity|].
  destruct (@registered_user_can_log_in Reference.libraries
              Reference.seeded (fst Reference.registered) "new@x.com"
              "Str0ng!Pass" "New" 1700000000000 "salt" "0.4fzyo82mvyr"
              (snd Reference.registered) 1700000005000 "0.zzz"
              reference_bcrypt_contract (or_introl eq_refl) eq_refl)
    as (u & Hu & Hget & Hlogin & Hwrong).
  injection Hu as <-.
  split.
  - eexists. eexists.
    split; [reflexivity|]. split; [exact Hget|].
    split; [rewrite Hlogin; reflexivity|].
    apply Hwrong. reflexivity.
  - split; [reflexivity|]. split; [reflexivity|].
    destruct (@registered_user_can_log_in Reference.libraries
                Reference.seeded (fst Overlap.first_write) "dup@x.com"
                "Str0ng!Pass" "First" 1700000000000 "salt1" "0.4fzyo82mvyr"
                (snd Overlap.first_write) 1700000005000 "0.zzz"
                reference_bcrypt_contract (or_intror (conj eq_refl eq_refl))
                eq_refl)
      as (u' & Hu' & _ & Hlogin' & _).
    injection Hu' as <-.
    eexists. eexists.
    split; [reflexivity|]. rewrite Hlogin'. reflexivity.
Defined.

(* ================================================================= *)
(** ** Seeding *)

(** X8.  Seeding writes under its own two ids and nowhere else.
    [initializeUsers] writes the administrator under ["1"] and the demo user
    under ["2"], each after a wait of its own and with the two clock
    readings taken when its literal is built.  Whatever has run before a
    write, the write puts that record under its key and leaves every other
    record and every session as it was.  A registration never writes under
    ["1"] or ["2"], whenever it writes.  The test on entry passes on the
    empty registry, and with nothing in between the function leaves exactly
    the two records there; called on a registry that has a record it does
    nothing. *)
Theorem seeding_writes_only_its_ids {L : Libraries}
    (st : Store) (created1 updated1 : Z) (salt1 : string)
    (created2 updated2 : Z) (salt2 : string) :
  (JsMap.get "1" (users (initializeUsers_admin st created1 updated1 salt1)) =
     Some (adminUser created1 updated1 (hashPassword "admin123!" salt1)) /\
   (forall k, k <> "1" ->
      JsMap.get k (users (initializeUsers_admin st created1 updated1 salt1)) =
      JsMap.get k (users st)) /\
   sessions (initializeUsers_admin st created1 updated1 salt1) = sessions st) /\
  (JsMap.get "2" (users (initializeUsers_demo st created2 updated2 salt2)) =
     Some (demoUser created2 updated2 (hashPassword "user123!" salt2)) /\
   (forall k, k <> "2" ->
      JsMap.get k (users (initializeUsers_demo st created2 updated2 salt2)) =
      JsMap.get k (users st)) /\
   sessions (initializeUsers_demo st created2 updated2 salt2) = sessions st) /\
  (forall email password name now salt random36 k,
      k = "1" \/ k = "2" ->
      JsMap.get k
        (users (fst (registerUser_store st email password name now salt
                       random36))) =
      JsMap.get k (users st)) /\
  (initializeUsers_check empty_store = true /\
   users (initializeUsers empty_store created1 updated1 salt1
            created2 updated2 salt2) =
   [("1", adminUser created1 updated1 (hashPassword "admin123!" salt1));
    ("2", demoUser created2 updated2 (hashPassword "user123!" salt2))]) /\
  (users st <> [] ->
   initializeUsers st created1 updated1 salt1 created2 updated2 salt2 = st).
Proof.
  split; [|split; [|split; [|split]]].
  - unfold initializeUsers_admin. cbn [users sessions].
    split; [apply JsMapFacts.get_set_same|]. split; [|reflexivity].
    intros k Hk. now apply JsMapFacts.get_set_other.
  - unfold initializeUsers_demo. cbn [users sessions].
    split; [apply JsMapFacts.get_set_same|]. split; [|reflexivity].
    intros k Hk. now apply JsMapFacts.get_set_other.
  - intros email password name now salt random36 k Hk.
    rewrite (proj1 (registerUser_store_users _ _ _ _ _ _ _)).
    apply JsMapFacts.get_set_other. unfold new_user_id.
    destruct Hk as [->| ->]; discriminate.
  - split; reflexivity.
  - intro Hne. unfold initializeUsers, initializeUsers_check, JsMap.size.
    destruct (users st) as [|e m]; [now destruct Hne | reflexivity].
Qed.

Lemma seeding_writes_only_its_ids_witness :
  users (fst Reference.registered) <> [] /\
  @initializeUsers Reference.libraries (fst Reference.registered)
    5 6 "a" 7 8 "b" = fst Reference.registered /\
  JsMap.keys (users Overlap.seeded_late) =
    ["user_900_4fzyo82mv"; "1"; "2"] /\
  JsMap.get "1" (users Overlap.seeded_late) =
    Some (adminUser 1000 1000 "$2b$12$admin123!").
Proof.
  assert (Hne : users (fst Reference.registered) <> []) by discriminate.
  destruct (@seeding_writes_only_its_ids Reference.libraries
              (fst Reference.registered) 5 6 "a" 7 8 "b")
    as (_ & _ & _ & _ & Hkeep).
  destruct (@seeding_writes_only_its_ids Reference.libraries
              (@initializeUsers_admin Reference.libraries
                 (fst Overlap.early_write) 1000 1000 "s1")
              1000 1000 "s1" 1200 1200 "s2")
    as (_ & (_ & Hother & _) & _).
  destruct (@seeding_writes_only_its_ids Reference.libraries
              (fst Overlap.early_write) 1000 1000 "s1" 1200 1200 "s2")
    as ((Hadmin & _) & _).
  split; [exact Hne|]. split; [exact (Hkeep Hne)|].
  split; [reflexivity|].
  unfold Overlap.seeded_late.
  rewrite (Hother "1") by discriminate. exact Hadmin.
Defined.

(* ================================================================= *)
(** ** More invariants of the reachable stores *)

Section MoreInvariants.

Context {L : Libraries}.

(** No call removes a key of the registry. *)
Lemma run_keeps_users (c : Call) (st : Store) (k : string) :
  JsMap.has k (users st) = true -> JsMap.has k (users (run c st)) = true.
Proof.
  intro H.
  assert (Hstore : forall email password name now salt random36,
             JsMap.has k
               (users (fst (registerUser_store st email password name now
                              salt random36))) = true).
  { intros. rewrite (proj1 (registerUser_store_users _ _ _ _ _ _ _)).
    now apply has_set_kept. }
  destruct c as [created updated salt | created updated salt
                | email password now random36
                | email password name now salt random36
                | email password name now salt random36
                | userId updates now | now]; simpl.
  - now apply has_set_kept.
  - now apply has_set_kept.
  - now rewrite authenticateUser_users.
  - unfold registerUser.
    destruct (registerUser_check st email password); [exact H | apply Hstore].
  - destruct (registerUser_check empty_store email password);
      [exact H | apply Hstore].
  - unfold updateUser.
    destruct (JsMap.get userId (users st)); simpl; [|exact H].
    now apply has_set_kept.
  - exact H.
Qed.

Lemma found_user_has_key (st : Store) (email : string) (u : StoredUser.t) :
  store_wf st ->
  find_by_email email (users st) = Some u ->
  JsMap.has (StoredUser.id u) (users st) = true.
Proof.
  intros Hwf Hf. pose proof (find_by_email_get st email u Hwf Hf) as Hg.
  destruct (JsMap.has (StoredUser.id u) (users st)) eqn:E; [reflexivity|].
  apply JsMapFacts.has_get in E. congruence.
Qed.

Lemma run_sessions_reference_users (c : Call) (st : Store) :
  store_wf st ->
  sessions_reference_users st -> sessions_reference_users (run c st).
Proof.
  intros Hwf Href sid s Hin.
  assert (Hold : In (sid, s) (sessions st) ->
                 JsMap.has (Session.userId s) (users (run c st)) = true)
    by (intro H; apply run_keeps_users; eauto).
  destruct c as [created updated salt | created updated salt
                | email password now random36
                | email password name now salt random36
                | email password name now salt random36
                | userId updates now | now]; simpl in Hin.
  - now apply Hold.
  - now apply Hold.
  - simpl. rewrite authenticateUser_users.
    unfold authenticateUser in Hin.
    destruct (find_by_email email (users st)) as [foundUser|] eqn:Ef;
      [|now apply Href in Hin].
    destruct (negb _); [now apply Href in Hin|].
    destruct (signToken _ now); [|now apply Href in Hin].
    cbn [fst sessions] in Hin.
    apply JsMapFacts.In_set in Hin as [[= -> ->]|Hin];
      [|now apply Href in Hin].
    cbn [Session.userId]. now apply (found_user_has_key st email).
  - apply Hold. now rewrite registerUser_sessions in Hin.
  - apply Hold.
    destruct (registerUser_check empty_store email password); [exact Hin|].
    now rewrite (proj2 (registerUser_store_users _ _ _ _ _ _ _)) in Hin.
  - apply Hold. unfold updateUser in Hin.
    now destruct (JsMap.get userId (users st)).
  - apply Hold. cbn [cleanupExpiredSessions sessions] in Hin.
    rewrite cleanup_loop in Hin. now apply filter_In in Hin.
Qed.

(** X9.  In every store the module can reach from the empty one: the keys
    of the user map and of the session map are distinct, every user record
    sits under its own [id], and every session names the id of a user that
    is in the registry. *)
Theorem reachable_store_invariants (st : Store) :
  reachable st ->
  JsMap.wf (users st) /\
  JsMap.wf (sessions st) /\
  (forall k u, JsMap.get k (users st) = Some u -> StoredUser.id u = k) /\
  sessions_reference_users st.
Proof.
  intro H.
  assert (Hboth : store_wf st /\ sessions_reference_users st).
  { induction H as [|c st Hr [IHwf IHref]].
    - split; [repeat split; simpl; constructor | intros sid s []].
    - split; [now apply run_store_wf | now apply run_sessions_reference_users]. }
  destruct Hboth as [(Hu & Hk & Hs) Href].
  repeat split; auto.
  intros k u Hg. apply JsMapFacts.get_In in Hg.
  unfold keyed_by_id in Hk. rewrite Forall_forall in Hk.
  symmetry. exact (Hk _ Hg).
Qed.

Lemma run_all_store_wf (calls : list Call) (st : Store) :
  store_wf st -> store_wf (run_all calls st).
Proof.
  unfold run_all. revert st.
  induction calls as [|c calls IH]; intros st H; simpl; [exact H|].
  apply IH. now apply run_store_wf.
Qed.

Lemma run_all_keeps_users (calls : list Call) (st : Store) (k : string) :
  JsMap.has k (users st) = true ->
  JsMap.has k (users (run_all calls st)) = true.
Proof.
  unfold run_all. revert st.
  induction calls as [|c calls IH]; intros st H; simpl; [exact H|].
  apply IH. now apply run_keeps_users.
Qed.

(** X10.  Users are never removed and never change their id: an id that
    [getUserById] resolves in a reachable store is resolved after any
    further sequence of calls, to a user with that very id. *)
Theorem users_are_never_removed (calls : list Call) (st : Store)
    (userId : string) (u : User.t) :
  reachable st ->
  getUserById st userId = Some u ->
  exists u',
    getUserById (run_all calls st) userId = Some u' /\ User.id u' = userId.
Proof.
  intros Hreach Hget.
  assert (Hhas : JsMap.has userId (users st) = true).
  { unfold getUserById in Hget.
    destruct (JsMap.has userId (users st)) eqn:E; [reflexivity|].
    apply JsMapFacts.has_get in E. now rewrite E in Hget. }
  apply (run_all_keeps_users calls) in Hhas.
  pose proof (run_all_store_wf calls st (reachable_store_wf st Hreach))
    as (_ & Hk & _).
  unfold getUserById.
  destruct (JsMap.get userId (users (run_all calls st))) as [v|] eqn:Eg.
  - exists (userWithoutPassword v). split; [reflexivity|].
    apply JsMapFacts.get_In in Eg.
    unfold keyed_by_id in Hk. rewrite Forall_forall in Hk.
    symmetry. exact (Hk _ Eg).
  - apply JsMapFacts.has_get in Eg. congruence.
Qed.

End MoreInvariants.

Lemma reachable_store_invariants_witness :
  @reachable Reference.libraries (fst Reference.logged_in) /\
  JsMap.wf (users (fst Reference.logged_in)) /\
  sessions_reference_users (fst Reference.logged_in).
Proof.
  assert (Hreach : @reachable Reference.libraries (fst Reference.logged_in))
    by (apply (@reachable_run Reference.libraries
                 (CallAuthenticate "user@demo.com" "user123!" 1700000000000
                    "0.4fzyo82mvyr")), reachable_seeded).
  split; [exact Hreach|].
  destruct (@reachable_store_invariants Reference.libraries _ Hreach)
    as (Hu & _ & _ & Href).
  split; [exact Hu | exact Href].
Defined.

Lemma users_are_never_removed_witness :
  @reachable Reference.libraries Reference.seeded /\
  getUserById Reference.seeded "2" <> None /\
  exists u',
    getUserById
      (@run_all Reference.libraries
         [CallUpdate "2" take_admin_email 2000;
          CallRegister "new@x.com" "Str0ng!Pass" "New" 1700000000000 "salt"
            "0.4fzyo82mvyr";
          CallCleanup 1700086400001]
         Reference.seeded) "2" = Some u' /\
    User.id u' = "2".
Proof.
  split; [exact reachable_seeded|]. split; [discriminate|].
  apply (@users_are_never_removed Reference.libraries _ Reference.seeded "2"
           (userWithoutPassword (demoUser 1200 1200 "$2b$12$user123!"))
           reachable_seeded).
  reflexivity.
Defined.

(* ================================================================= *)
(** ** The life of a session *)

Lemma get_filter {V} (p : string * V -> bool) (k : string) (m : JsMap.t V) :
  JsMap.wf m ->
  JsMap.get k (filter p m) =
  match JsMap.get k m with
  | Some v => if p (k, v) then Some v else None
  | None => None
  end.
Proof.
  unfold JsMap.wf, JsMap.keys, JsMap.get.
  induction m as [|[k' v'] m IH]; simpl; [reflexivity|].
  intro Hnd. inversion Hnd as [|? ? Hnotin Hnd']; subst.
  destruct (String.eqb k' k) eqn:E; simpl.
  - apply String.eqb_eq in E. subst k'.
    assert (Hnone : find (fun e => String.eqb (fst e) k) m = None).
    { destruct (find _ m) as [[k0 v0]|] eqn:Ef; [|reflexivity].
      apply find_some in Ef as [Hin Hk]. simpl in Hk.
      apply String.eqb_eq in Hk. subst k0.
      exfalso. apply Hnotin. apply in_map_iff. now exists (k, v0). }
    destruct (p (k, v')); simpl.
    + now rewrite String.eqb_refl.
    + rewrite (IH Hnd'), Hnone. reflexivity.
  - destruct (p (k', v')); simpl; [rewrite E|]; now apply IH.
Qed.

(** X11.  The session a successful login creates at clock reading [T] is
    stored under the generated identifier with [expiresAt = T + 24 h]; a
    sweep run at any reading up to and including that instant keeps it
    unchanged, and a sweep run at any later reading removes it.  The sweep
    does not touch the users, so no token lookup changes its answer. *)
Theorem session_lives_24_hours {L : Libraries}
    (st st' : Store) (email password : string) (T : Z) (random36 : string)
    (r : AuthResult.t) (now' : Z) :
  reachable st ->
  authenticateUser st email password T random36 = (st', r) ->
  AuthResult.success r = true ->
  exists session,
    JsMap.get (generateSessionId T random36) (sessions st') = Some session /\
    Session.expiresAt session = T + 24 * 60 * 60 * 1000 /\
    (now' <= T + 24 * 60 * 60 * 1000 ->
     JsMap.get (generateSessionId T random36)
       (sessions (cleanupExpiredSessions st' now')) = Some session) /\
    (T + 24 * 60 * 60 * 1000 < now' ->
     JsMap.get (generateSessionId T random36)
       (sessions (cleanupExpiredSessions st' now')) = None) /\
    (forall token t,
        getUserByToken (cleanupExpiredSessions st' now') token t =
        getUserByToken st' token t).
Proof.
  intros Hreach E Hs.
  destruct (authenticateUser_success _ _ _ _ _ _ _ E Hs)
    as (foundUser & token & _ & _ & _ & -> & _).
  destruct (reachable_store_wf st Hreach) as (_ & _ & Hwf).
  eexists. cbn [sessions].
  split; [apply JsMapFacts.get_set_same|]. split; [reflexivity|].
  assert (Hcl : forall b,
             (Session.expiresAt
                {| Session.userId := StoredUser.id foundUser;
                   Session.expiresAt := T + 24 * 60 * 60 * 1000 |} <? now') = b ->
             JsMap.get (generateSessionId T random36)
               (fold_left (cleanup_step now')
                  (JsMap.entries
                     (JsMap.set (generateSessionId T random36)
                        {| Session.userId := StoredUser.id foundUser;
                           Session.expiresAt := T + 24 * 60 * 60 * 1000 |}
                        (sessions st)))
                  (JsMap.set (generateSessionId T random36)
                     {| Session.userId := StoredUser.id foundUser;
                        Session.expiresAt := T + 24 * 60 * 60 * 1000 |}
                     (sessions st))) =
             if b then None
             else Some {| Session.userId := StoredUser.id foundUser;
                          Session.expiresAt := T + 24 * 60 * 60 * 1000 |}).
  { intros b Hb.
    rewrite cleanup_is_filter by (now apply JsMapFacts.set_wf).
    rewrite get_filter by (now apply JsMapFacts.set_wf).
    rewrite JsMapFacts.get_set_same. unfold expired. cbn [snd].
    rewrite Hb. now destruct b. }
  split; [|split].
  - intro Hle. apply (Hcl false). cbn [Session.expiresAt].
    apply Z.ltb_ge. lia.
  - intro Hlt. apply (Hcl true). cbn [Session.expiresAt].
    apply Z.ltb_lt. lia.
  - reflexivity.
Qed.

Lemma session_lives_24_hours_witness :
  @reachable Reference.libraries Reference.seeded /\
  AuthResult.success (snd Reference.logged_in) = true /\
  JsMap.get "session_1700000000000_4fzyo82mv"
    (sessions (cleanupExpiredSessions (fst Reference.logged_in) 1700086400000))
  = Some {| Session.userId := "2"; Session.expiresAt := 1700086400000 |} /\
  JsMap.get "session_1700000000000_4fzyo82mv"
    (sessions (cleanupExpiredSessions (fst Reference.logged_in) 1700086400001))
  = None.
Proof.
  split; [exact reachable_seeded|]. split; [reflexivity|].
  destruct (@session_lives_24_hours Reference.libraries Reference.seeded
              (fst Reference.logged_in) "user@demo.com" "user123!"
              1700000000000 "0.4fzyo82mvyr" (snd Reference.logged_in)
              1700086400000 reachable_seeded eq_refl eq_refl)
    as (s1 & Hs1 & _ & Hkeep & _).
  destruct (@session_lives_24_hours Reference.libraries Reference.seeded
              (fst Reference.logged_in) "user@demo.com" "user123!"
              1700000000000 "0.4fzyo82mvyr" (snd Reference.logged_in)
              1700086400001 reachable_seeded eq_refl eq_refl)
    as (s2 & _ & _ & _ & Hdrop & _).
  injection Hs1 as <-.
  split; [apply Hkeep; vm_compute; discriminate | apply Hdrop; reflexivity].
Defined.

(* ================================================================= *)
(** ** The routes *)

Section RouteFacts.

Context {L : Libraries}.

Lemma extract_bearer (token : string) (cookie : option string) :
  extractTokenFromRequest
    {| Request.authorization := Some ("Bearer " ++ token);
       Request.cookie := cookie |} = Some token.
Proof.
  unfold extractTokenFromRequest. cbn [Request.authorization].
  now rewrite (JsStringFacts.startsWith_app "Bearer " token).
Qed.

(** What a user returned by [getUserByToken] rests on. *)
Lemma getUserByToken_verified (st : Store) (token : string) (now : Z)
    (u : User.t) :
  getUserByToken st token now = Some u <->
  exists c, jwtVerify token now = inl c /\
            getUserById st (JWTPayload.userId c) = Some u.
Proof.
  unfold getUserByToken, verifyToken.
  destruct (jwtVerify token now) as [c|e]; split.
  - intro H. now exists c.
  - now intros (c' & [= <-] & H).
  - discriminate.
  - now intros (c' & Hc & _).
Qed.

Lemma getUserById_user_facing (st : Store) (userId : string) (u : User.t) :
  getUserById st userId = Some u -> user_facing (users st) u.
Proof.
  unfold getUserById.
  destruct (JsMap.get userId (users st)) as [stored|] eqn:E; [|discriminate].
  intros [= <-]. now apply (user_facing_intro _ userId).
Qed.

(** The first step of the Linode and Paystack routes. *)
Lemma route_user_verified (st : Store) (request : Request.t) (now : Z)
    (u : User.t) :
  route_user st request now = Some u <->
  exists token c,
    extractTokenFromRequest request = Some token /\ token <> "" /\
    jwtVerify token now = inl c /\
    getUserById st (JWTPayload.userId c) = Some u.
Proof.
  unfold route_user.
  destruct (extractTokenFromRequest request) as [token|]; split.
  - destruct (String.eqb token "") eqn:E; [discriminate|].
    intro H. apply getUserByToken_verified in H as (c & Hc & Hu).
    exists token, c. apply String.eqb_neq in E. auto.
  - intros (token' & c & [= <-] & Hne & Hc & Hu).
    apply String.eqb_neq in Hne. rewrite Hne.
    apply getUserByToken_verified. now exists c.
  - discriminate.
  - now intros (token' & c & Ht & _).
Qed.

(** X12.  [GET /api/auth/me] answers 200 or 401 and nothing else.  It
    answers 200 exactly when the request carries a token that is not empty,
    [jwtVerify] accepts it, and the [userId] it verifies to is in the
    registry; a user appears in the body only then, and it is a record of
    the registry without its password.  Without a token, or with an empty
    one, the answer is 401 ['No token provided']. *)
Theorem GET_me_outcomes (st : Store) (request : Request.t) (now : Z) :
  (Response.status (GET_me st request now) = 200 \/
   Response.status (GET_me st request now) = 401) /\
  (Response.status (GET_me st request now) = 200 <->
   exists token c u,
     extractTokenFromRequest request = Some token /\ token <> "" /\
     jwtVerify token now = inl c /\
     getUserById st (JWTPayload.userId c) = Some u) /\
  (forall u,
      Body.user (Response.body (GET_me st request now)) = Some u ->
      Response.status (GET_me st request now) = 200 /\
      user_facing (users st) u) /\
  (truthy (extractTokenFromRequest request) = false ->
   GET_me st request now =
   {| Response.status := 401;
      Response.body := Body.failure "No token provided" |}).
Proof.
  unfold GET_me, truthy.
  destruct (extractTokenFromRequest request) as [token|] eqn:Et.
  - destruct (String.eqb token "") eqn:Ee.
    + apply String.eqb_eq in Ee. subst token.
      repeat split; auto; try discriminate.
      intros (token' & c & u & [= <-] & Hne & _). now destruct Hne.
    + apply String.eqb_neq in Ee.
      destruct (getUserByToken st token now) as [u|] eqn:Eu.
      * pose proof (proj1 (getUserByToken_verified _ _ _ _) Eu)
          as (c & Hc & Hu).
        repeat split; auto; try discriminate.
        -- intros _. now exists token, c, u.
        -- cbn in H. injection H as <-.
           now apply (getUserById_user_facing st (JWTPayload.userId c)).
      * repeat split; auto; try discriminate.
        intros (token' & c & u & [= <-] & _ & Hc & Hu).
        assert (Hsome : getUserByToken st token now = Some u)
          by (apply getUserByToken_verified; now exists c).
        congruence.
  - repeat split; auto; try discriminate.
    intros (token' & c & u & Ht & _). discriminate Ht.
Qed.

(** X13.  After a successful login on a reachable store, with a token
    library that honours the expiry of the issued token, a request that
    presents the token as [Authorization: Bearer <token>] is answered by
    [GET /api/auth/me] with 200 and the user who logged in at every clock
    reading before the [exp] claim, whatever cookies it carries, and with
    401 ['Invalid token'] at every reading after it. *)
Theorem GET_me_after_login
    (st st' : Store) (email password : string) (T : Z) (random36 : string)
    (u : User.t) (token : string) (cookie : option string) (t : Z) :
  reachable st ->
  authenticateUser st email password T random36 =
    (st', AuthResult.ok u token) ->
  jose_honours L token (claims_for u T) ->
  token <> "" ->
  (epoch t < epoch T + 24 * 60 * 60 ->
   GET_me st'
     {| Request.authorization := Some ("Bearer " ++ token);
        Request.cookie := cookie |} t =
   {| Response.status := 200;
      Response.body :=
        {| Body.success := true; Body.user := Some u; Body.data := None;
           Body.error := None;
           Body.message := Some "User retrieved successfully" |} |}) /\
  (epoch T + 24 * 60 * 60 < epoch t ->
   GET_me st'
     {| Request.authorization := Some ("Bearer " ++ token);
        Request.cookie := cookie |} t =
   {| Response.status := 401; Response.body := Body.failure "Invalid token" |}).
Proof.
  intros Hreach E Hlib Hne.
  destruct (authenticateUser_success _ _ _ _ _ _ _ E eq_refl)
    as (foundUser & token' & Hfind & _ & _ & -> & [= -> ->]).
  pose proof (find_by_email_get st email foundUser
                (reachable_store_wf st Hreach) Hfind) as Hget.
  unfold GET_me. rewrite extract_bearer.
  apply String.eqb_neq in Hne. rewrite Hne.
  unfold getUserByToken, verifyToken.
  split; intro Ht.
  - rewrite (proj1 (Hlib t (epoch T + 24 * 60 * 60) eq_refl) Ht).
    unfold getUserById.
    cbn [users as_TokenPayload TokenPayload.userId JWTPayload.userId
           claims_for token_claims setExpirationTime_24h setIssuedAt SignJWT
           User.id userWithoutPassword].
    now rewrite Hget.
  - now rewrite (proj2 (Hlib t (epoch T + 24 * 60 * 60) eq_refl) Ht).
Qed.

(** X14.  The Linode types route lets nothing through without a user.
    When the request has no token that verifies to a user of the registry
    the answer is 401 ['Unauthorized'] whatever the Linode API would say;
    any other status, and any data in the body, means that a token that is
    not empty was presented, verified and resolved to a stored user.  For
    such a request the API result decides: 200 with its data on success,
    500 with its error otherwise. *)
Theorem GET_types_requires_user {D : Type}
    (st : Store) (request : Request.t) (now : Z) (result : ApiResponse.t D) :
  (route_user st request now = None ->
   GET_types st request now result =
   {| Response.status := 401; Response.body := Body.failure "Unauthorized" |}) /\
  (Response.status (GET_types st request now result) <> 401 \/
   Body.data (Response.body (GET_types st request now result)) <> None ->
   exists token c u,
     extractTokenFromRequest request = Some token /\ token <> "" /\
     jwtVerify token now = inl c /\
     getUserById st (JWTPayload.userId c) = Some u) /\
  (route_user st request now <> None ->
   Response.status (GET_types st request now result) =
     (if ApiResponse.success result then 200 else 500) /\
   Body.data (Response.body (GET_types st request now result)) =
     (if ApiResponse.success result then ApiResponse.data result else None) /\
   Body.error (Response.body (GET_types st request now result)) =
     (if ApiResponse.success result then None else ApiResponse.error result)).
Proof.
  unfold GET_types.
  destruct (route_user st request now) as [u|] eqn:Eu.
  - apply route_user_verified in Eu as (token & c & H).
    split; [discriminate|]. split.
    + intros _. now exists token, c, u.
    + intros _. now destruct (ApiResponse.success result).
  - split; [reflexivity|]. split.
    + intros [H|H]; now destruct H.
    + intro H. now destruct H.
Qed.

End RouteFacts.

Lemma GET_me_outcomes_witness :
  Response.status
    (@GET_me Reference.libraries (fst Reference.logged_in)
       {| Request.authorization := Some ("Bearer " ++ Tokens.issued);
          Request.cookie := None |} Tokens.in_time) = 200 /\
  exists token c u,
    extractTokenFromRequest
      {| Request.authorization := Some ("Bearer " ++ Tokens.issued);
         Request.cookie := None |} = Some token /\
    token <> "" /\
    @jwtVerify Reference.libraries token Tokens.in_time = inl c /\
    getUserById (fst Reference.logged_in) (JWTPayload.userId c) = Some u.
Proof.
  split; [reflexivity|].
  apply (proj1 (proj1 (proj2 (@GET_me_outcomes Reference.libraries
                                (fst Reference.logged_in)
                                {| Request.authorization :=
                                     Some ("Bearer " ++ Tokens.issued);
                                   Request.cookie := None |}
                                Tokens.in_time)))).
  reflexivity.
Defined.

Lemma GET_me_after_login_witness :
  @reachable Reference.libraries Reference.seeded /\
  Tokens.issued <> "" /\
  Response.status
    (@GET_me Reference.libraries (fst Reference.logged_in)
       {| Request.authorization := Some ("Bearer " ++ Tokens.issued);
          Request.cookie := Some "token=stale" |} 1700043200000) = 200 /\
  @GET_me Reference.libraries (fst Reference.logged_in)
    {| Request.authorization := Some ("Bearer " ++ Tokens.issued);
       Request.cookie := Some "token=stale" |} 1700086401000 =
  {| Response.status := 401; Response.body := Body.failure "Invalid token" |}.
Proof.
  assert (Hne : Tokens.issued <> "") by discriminate.
  split; [exact reachable_seeded|]. split; [exact Hne|].
  destruct (@GET_me_after_login Reference.libraries Reference.seeded
              (fst Reference.logged_in) "user@demo.com" "user123!"
              1700000000000 "0.4fzyo82mvyr"
              (userWithoutPassword (demoUser 1200 1200 "$2b$12$user123!"))
              Tokens.issued (Some "token=stale") 1700043200000
              reachable_seeded eq_refl
              (reference_honours_issued _ eq_refl) Hne) as [Hin _].
  destruct (@GET_me_after_login Reference.libraries Reference.seeded
              (fst Reference.logged_in) "user@demo.com" "user123!"
              1700000000000 "0.4fzyo82mvyr"
              (userWithoutPassword (demoUser 1200 1200 "$2b$12$user123!"))
              Tokens.issued (Some "token=stale") 1700086401000
              reachable_seeded eq_refl
              (reference_honours_issued _ eq_refl) Hne) as [_ Hout].
  split.
  - rewrite Hin; [reflexivity | vm_compute; reflexivity].
  - apply Hout. vm_compute. reflexivity.
Defined.

Lemma GET_types_requires_user_witness :
  @route_user Reference.libraries (fst Reference.logged_in)
    {| Request.authorization := None; Request.cookie := Some "theme=dark" |}
    Tokens.in_time = None /\
  @GET_types Reference.libraries (list string) (fst Reference.logged_in)
    {| Request.authorization := None; Request.cookie := Some "theme=dark" |}
    Tokens.in_time
    {| ApiResponse.success := true; ApiResponse.data := Some ["g6-nanode-1"];
       ApiResponse.error := None; ApiResponse.message := None |} =
  {| Response.status := 401; Response.body := Body.failure "Unauthorized" |} /\
  Response.status
    (@GET_types Reference.libraries (list string) (fst Reference.logged_in)
       {| Request.authorization := None;
          Request.cookie := Some ("token=" ++ Tokens.issued) |}
       Tokens.in_time
       {| ApiResponse.success := false; ApiResponse.data := None;
          ApiResponse.error := Some "Rate limit exceeded: Please try again later";
          ApiResponse.message := None |}) = 500.
Proof.
  split; [reflexivity|]. split.
  - apply (proj1 (@GET_types_requires_user Reference.libraries (list string)
                    (fst Reference.logged_in)
                    {| Request.authorization := None;
                       Request.cookie := Some "theme=dark" |}
                    Tokens.in_time _)).
    reflexivity.
  - apply (proj2 (proj2 (@GET_types_requires_user Reference.libraries
                           (list string) (fst Reference.logged_in)
                           {| Request.authorization := None;
                              Request.cookie := Some ("token=" ++ Tokens.issued) |}
                           Tokens.in_time
                           {| ApiResponse.success := false;
                              ApiResponse.data := None;
                              ApiResponse.error :=
                                Some "Rate limit exceeded: Please try again later";
                              ApiResponse.message := None |}))).
    discriminate.
Defined.

(* ================================================================= *)
(** ** The customer code of the billing route *)

Section CustomerCode.

Lemma replace_keeps_absent (c a : ascii) (by_ s : string) :
  JsString.mem a by_ = false ->
  JsString.mem a s = false ->
  JsString.mem a (JsString.replace c by_ s) = false.
Proof.
  intros Hby. induction s as [|x s IH]; simpl; [reflexivity|].
  intro H. apply orb_false_iff in H as [Hx Hs].
  destruct (Ascii.eqb x c); simpl.
  - now rewrite JsStringFacts.mem_app, Hby, Hs.
  - now rewrite Hx, (IH Hs).
Qed.

Lemma replace_length (c a : ascii) (s : string) :
  String.length (JsString.replace c (String a "") s) = String.length s.
Proof.
  induction s as [|x s IH]; simpl; [reflexivity|].
  destruct (Ascii.eqb x c); simpl; [reflexivity | now rewrite IH].
Qed.

Definition with_email (email : string) : User.t :=
  {| User.id := ""; User.email := email; User.name := "";
     User.role := Role.user; User.createdAt := 0; User.updatedAt := 0;
     User.profile := None; User.extra := [] |}.

(** X15.  The customer code built from the e-mail address of a user whose
    address [validateEmail] accepts is ["cus_"] followed by a string as long
    as the address and without [@].  The code does not determine the
    address: moving the [@] onto an underscore, as from [a_b@c] to [a@b_c],
    gives the same code, because only the first [@] and the first dot are
    replaced, both by an underscore. *)
Theorem customerCode_hides_at_and_collides :
  (forall u,
      validateEmail (User.email u) = true ->
      exists code,
        customerCode u = "cus_" ++ code /\
        String.length code = String.length (User.email u) /\
        JsString.mem "@" code = false) /\
  (forall u u' l m d,
      JsString.mem "@" l = false ->
      JsString.mem "@" m = false ->
      User.email u = l ++ "_" ++ m ++ "@" ++ d ->
      User.email u' = l ++ "@" ++ m ++ "_" ++ d ->
      customerCode u = customerCode u').
Proof.
  split.
  - intros u Hv. unfold customerCode. eexists. split; [reflexivity|].
    rewrite !replace_length. split; [reflexivity|].
    apply validateEmail_one_at in Hv as (_ & l & rest & -> & Hl & Hrest).
    change (l ++ "@" ++ rest) with (l ++ String "@" rest).
    rewrite (JsStringFacts.replace_first "@" "_" l rest Hl).
    apply replace_keeps_absent; [reflexivity|].
    rewrite !JsStringFacts.mem_app, Hl, Hrest. reflexivity.
  - intros u u' l m d Hl Hm Eu Eu'. unfold customerCode.
    rewrite Eu, Eu'. do 2 f_equal.
    change (l ++ "@" ++ m ++ "_" ++ d) with (l ++ String "@" (m ++ "_" ++ d)).
    rewrite (JsStringFacts.replace_first "@" "_" l _ Hl).
    replace (l ++ "_" ++ m ++ "@" ++ d)
      with ((l ++ "_" ++ m) ++ String "@" d)
      by (now rewrite !append_assoc).
    rewrite (JsStringFacts.replace_first "@" "_" (l ++ "_" ++ m) d).
    + now rewrite !append_assoc.
    + rewrite !JsStringFacts.mem_app, Hl, Hm. reflexivity.
Qed.

Lemma customerCode_hides_at_and_collides_witness :
  validateEmail "a_b@c.d" = true /\
  validateEmail "a@b_c.d" = true /\
  customerCode (with_email "a_b@c.d") = "cus_a_b_c_d" /\
  customerCode (with_email "a_b@c.d") = customerCode (with_email "a@b_c.d").
Proof.
  split; [reflexivity|]. split; [reflexivity|]. split; [reflexivity|].
  apply (proj2 customerCode_hides_at_and_collides
           (with_email "a_b@c.d") (with_email "a@b_c.d") "a" "b" "c.d");
    reflexivity.
Defined.

End CustomerCode.

(* ================================================================= *)
(** ** Generated identifiers *)

Section Identifiers.

Lemma uint_string_no_underscore (d : Decimal.uint) :
  JsString.mem "_" (NilEmpty.string_of_uint d) = false.
Proof. induction d; simpl; auto. Qed.

Lemma number_to_string_no_underscore (n : Z) :
  JsString.mem "_" (number_to_string n) = false.
Proof.
  unfold number_to_string, NilZero.string_of_int, NilZero.string_of_uint.
  destruct (Z.to_int n) as [d|d]; destruct d; simpl;
    auto using uint_string_no_underscore.
Qed.

Lemma number_to_string_injective (n n' : Z) :
  number_to_string n = number_to_string n' -> n = n'.
Proof.
  unfold number_to_string. intro E.
  assert (Hok : forall z, Z.to_int z <> Decimal.Pos Decimal.Nil /\
                          Z.to_int z <> Decimal.Neg Decimal.Nil).
  { intros [|p|p]; simpl; split; try discriminate;
      intros [= H]; now apply (Stdlib.Numbers.DecimalPos.Unsigned.to_uint_nonnil p). }
  apply (f_equal NilZero.int_of_string) in E.
  rewrite !NilZero.isi in E by apply Hok.
  injection E as E. apply (f_equal Z.of_int) in E.
  now rewrite !Stdlib.Numbers.DecimalZ.of_to in E.
Qed.

(** The first separator decides where two strings part. *)
Lemma split_at_first (c : ascii) (a b x y : string) :
  JsString.mem c a = false -> JsString.mem c b = false ->
  a ++ String c x = b ++ String c y -> a = b /\ x = y.
Proof.
  revert b. induction a as [|p a IH]; intros [|q b]; simpl; intros Ha Hb E.
  - injection E as ->. auto.
  - injection E as <- _. now rewrite Ascii.eqb_refl in Hb.
  - injection E as -> _. now rewrite Ascii.eqb_refl in Ha.
  - injection E as -> E.
    apply orb_false_iff in Ha as [_ Ha]. apply orb_false_iff in Hb as [_ Hb].
    destruct (IH b Ha Hb E) as [-> ->]. auto.
Qed.

Lemma substring_length_le (n m : nat) (s : string) :
  (String.length (substring n m s) <= m)%nat.
Proof.
  revert n m. induction s as [|c s IH]; intros [|n] [|m]; simpl; try lia.
  - specialize (IH 0%nat m). lia.
  - apply (IH n 0%nat).
  - apply (IH n (S m)).
Qed.

(** X16.  Two user ids made by [registerUser] are equal exactly when the
    clock readings are equal and the random suffixes are equal, and so are
    two session ids; the suffix has at most nine characters.  A user id is
    never the id of a seeded user and never a session id. *)
Theorem generated_ids_collide_only_on_same_instant
    (now now' : Z) (random36 random36' : string) :
  (new_user_id now random36 = new_user_id now' random36' <->
   now = now' /\ random_suffix random36 = random_suffix random36') /\
  (generateSessionId now random36 = generateSessionId now' random36' <->
   now = now' /\ random_suffix random36 = random_suffix random36') /\
  (String.length (random_suffix random36) <= 9)%nat /\
  new_user_id now random36 <> "1" /\
  new_user_id now random36 <> "2" /\
  new_user_id now random36 <> generateSessionId now' random36'.
Proof.
  unfold new_user_id, generateSessionId.
  split; [|split; [|split; [|split; [|split]]]].
  - split.
    + intro E. injection E as E.
      apply split_at_first in E as [En Es];
        auto using number_to_string_no_underscore.
      split; [now apply number_to_string_injective | exact Es].
    + now intros [-> ->].
  - split.
    + intro E. injection E as E.
      apply split_at_first in E as [En Es];
        auto using number_to_string_no_underscore.
      split; [now apply number_to_string_injective | exact Es].
    + now intros [-> ->].
  - apply substring_length_le.
  - discriminate.
  - discriminate.
  - discriminate.
Qed.

End Identifiers.

(* ================================================================= *)
(** ** Payment methods are listed once *)

Section PaymentMethodFacts.

Variable Transaction : Type.
Variable authorization : Transaction -> option PaystackAuthorization.t.

(** The authorization codes the transactions carry. *)
Definition carried (transactions : list Transaction) (code : string) : Prop :=
  exists txn a,
    In txn transactions /\ authorization txn = Some a /\
    PaystackAuthorization.authorization_code a = code.

(** What the loop keeps true of its two variables. *)
Definition methods_ok (state : list string * list PaymentMethod.t) : Prop :=
  let '(seen, methods) := state in
  seen = map PaymentMethod.id methods /\
  NoDup seen /\
  (forall p, In p methods ->
             PaymentMethod.type p = PaymentMethod.card /\
             PaymentMethod.authorization_code p = Some (PaymentMethod.id p)) /\
  match methods with
  | [] => True
  | p :: rest =>
      PaymentMethod.is_default p = true /\
      forall q, In q rest -> PaymentMethod.is_default q = false
  end.

Lemma seen_has_In (seen : list string) (code : string) :
  seen_has seen code = true <-> In code seen.
Proof.
  unfold seen_has. rewrite existsb_exists. split.
  - intros (x & Hx & E). apply String.eqb_eq in E. now subst.
  - intro H. exists code. split; [assumption | apply String.eqb_refl].
Qed.

Lemma payment_step_ok (state : list string * list PaymentMethod.t)
    (txn : Transaction) :
  methods_ok state -> methods_ok (payment_step Transaction authorization state txn).
Proof.
  destruct state as [seen methods]. unfold payment_step.
  destruct (authorization txn) as [a|]; [|auto].
  destruct (seen_has seen _) eqn:Es; cbn [negb]; [auto|].
  intros (Hseen & Hnd & Hcard & Hdef).
  assert (Hnew : ~ In (PaystackAuthorization.authorization_code a) seen).
  { intro H. apply seen_has_In in H. congruence. }
  unfold methods_ok. split; [|split; [|split]].
  - rewrite map_app, Hseen. reflexivity.
  - apply NoDup_app; [assumption | repeat constructor; simpl; tauto |].
    intros x Hx [<-|[]]. exact (Hnew Hx).
  - intros p Hp. apply in_app_or in Hp as [Hp|[<-|[]]]; [auto | now split].
  - destruct methods as [|p rest]; simpl.
    + split; [reflexivity | intros q []].
    + destruct Hdef as [Hp Hrest]. split; [exact Hp|].
      intros q Hq. apply in_app_or in Hq as [Hq|[<-|[]]]; [auto | reflexivity].
Qed.

Lemma payment_fold_ok (transactions : list Transaction)
    (state : list string * list PaymentMethod.t) :
  methods_ok state ->
  methods_ok (fold_left (payment_step Transaction authorization)
                transactions state).
Proof.
  revert state. induction transactions as [|txn l IH]; intros state H; simpl;
    [exact H | apply IH, payment_step_ok, H].
Qed.

(** The codes seen after one turn of the loop. *)
Lemma payment_step_seen (state : list string * list PaymentMethod.t)
    (txn : Transaction) (code : string) :
  In code (fst (payment_step Transaction authorization state txn)) <->
  In code (fst state) \/
  exists a, authorization txn = Some a /\
            PaystackAuthorization.authorization_code a = code.
Proof.
  destruct state as [seen methods]. unfold payment_step.
  destruct (authorization txn) as [a|].
  - destruct (seen_has seen _) eqn:Es; cbn [negb fst].
    + split; [now left|].
      intros [H|(a' & [= <-] & <-)]; [exact H | now apply seen_has_In].
    + rewrite in_app_iff. split.
      * intros [H|[<-|[]]]; [now left | right; now exists a].
      * intros [H|(a' & [= <-] & <-)]; [now left | right; now left].
  - cbn [fst]. split; [now left|].
    intros [H|(a' & Ha & _)]; [exact H | discriminate Ha].
Qed.

(** The codes seen after the loop: those seen before and those carried. *)
Lemma payment_fold_seen (transactions : list Transaction)
    (state : list string * list PaymentMethod.t) (code : string) :
  In code (fst (fold_left (payment_step Transaction authorization)
                  transactions state)) <->
  In code (fst state) \/ carried transactions code.
Proof.
  revert state. induction transactions as [|txn l IH]; intros state; simpl.
  - split; [now left|]. intros [H|(t & a & [] & _)]. exact H.
  - rewrite IH, payment_step_seen. unfold carried. split.
    + intros [[H|(a & Ha & Hc)]|(t & a & Hin & Ht & Hc)].
      * now left.
      * right. exists txn, a. simpl. auto.
      * right. exists t, a. simpl. auto.
    + intros [H|(t & a & [<-|Hin] & Ht & Hc)].
      * left. now left.
      * left. right. now exists a.
      * right. now exists t, a.
Qed.

(** X17.  The payment methods of the billing overview list every
    authorization code the transactions carry, each one once: the ids are
    distinct, an id is listed exactly when some transaction carries that
    code, every method is a card whose [authorization_code] is its id, and
    the first method, and only the first, is the default. *)
Theorem payment_methods_listed_once (transactions : list Transaction) :
  NoDup (map PaymentMethod.id
           (payment_methods Transaction authorization transactions)) /\
  (forall code,
      In code (map PaymentMethod.id
                 (payment_methods Transaction authorization transactions)) <->
      carried transactions code) /\
  (forall p,
      In p (payment_methods Transaction authorization transactions) ->
      PaymentMethod.type p = PaymentMethod.card /\
      PaymentMethod.authorization_code p = Some (PaymentMethod.id p)) /\
  match payment_methods Transaction authorization transactions with
  | [] => True
  | p :: rest =>
      PaymentMethod.is_default p = true /\
      forall q, In q rest -> PaymentMethod.is_default q = false
  end.
Proof.
  unfold payment_methods.
  assert (Hinit : methods_ok (@nil string, @nil PaymentMethod.t)).
  { split; [reflexivity|]. split; [constructor|]. split; [intros p []|exact I]. }
  pose proof (payment_fold_ok transactions _ Hinit) as Hok.
  pose proof (payment_fold_seen transactions ([], [])) as Hseen.
  destruct (fold_left _ transactions ([], [])) as [seen methods].
  destruct Hok as (Hs & Hnd & Hcard & Hdef). cbn [fst snd] in *.
  split; [now rewrite <- Hs|]. split; [|split; assumption].
  intro code. rewrite <- Hs, Hseen. simpl. tauto.
Qed.

End PaymentMethodFacts.
